(** * SprintDesk: session protocol and realtime gateway

    A shallow embedding of [backend/src/routes/auth.ts] (the four routes
    register, login, refresh and logout) and of
    [backend/src/socket.ts] (handshake middleware, [join_workspace]
    handler, [emitWorkspaceEvent]), with the properties the
    specification states about them.

    Collections are lists in insertion order; a document is identified
    by its position, which never changes because no handler deletes.
    [new Date()] and the random token generator are read from streams
    carried by the world, so every handler is a deterministic state
    transformer.

    [utils/tokens], [config] and the Mongoose schemas under [models/]
    that the two files import are not among the sources at hand: what
    they export is taken as a parameter ([Auth.Lib], [Gateway.Jwt]), and
    the Mongoose calls are given their documented meaning on lists.

    Two pieces of the frontend follow: the link state of the
    knowledge-base page ([KnowledgeBase]) and the pure parts of the
    dashboard page ([Dashboard]). *)

From Stdlib Require Import ZArith Ascii.
From stdpp Require Import base option strings pretty list gmap.

Local Open Scope string_scope.

(** ** A state monad for handlers *)

Module Handler.

Definition M (W A : Type) : Type := W -> A * W.

Definition ret {W A} (a : A) : M W A := fun w => (a, w).

Definition bind {W A B} (c : M W A) (k : A -> M W B) : M W B :=
  fun w => let (a, w') := c w in k a w'.

Definition gets {W A} (f : W -> A) : M W A := fun w => (f w, w).

Definition modify {W} (f : W -> W) : M W unit := fun w => (tt, f w).

End Handler.

Import Handler.

Notation "'await' x <- c ; k" := (bind c (fun x => k))
  (at level 10, x name, c at level 100, k at level 200,
   format "'[v' 'await'  x  <-  c ; '/' k ']'").
Notation "'exec' c ; k" := (bind c (fun _ => k))
  (at level 10, c at level 100, k at level 200,
   format "'[v' 'exec'  c ; '/' k ']'").

(** JavaScript truthiness of a value that is either [undefined] or a
    string: only a non-empty string is truthy. *)
Definition truthy (v : option string) : bool :=
  match v with
  | Some s => negb (String.eqb s EmptyString)
  | None => false
  end.

(** [String(v)] on such a value. *)
Definition String_of (v : option string) : string :=
  match v with
  | Some s => s
  | None => "undefined"
  end.

(** ** Session protocol: [routes/auth.ts] *)

Module Auth.

(** Documents of the two collections. Dates are milliseconds. *)
Record User := {
  _id : string;
  email : string;
  name : string;
  passwordHash : string
}.

Record RefreshToken := {
  userId : string;
  tokenHash : string;
  expiresAt : Z;
  revokedAt : option Z
}.

(** The world a handler runs in: the two collections, the clock (the
    successive values of [new Date()]) and the random source (the
    successive values of [createRefreshToken()]). *)
Record World := {
  users : list User;
  refreshTokens : list RefreshToken;
  dates : nat -> Z;
  dateReads : nat;
  entropy : nat -> string;
  draws : nat
}.

(** The persisted part of the world. *)
Definition db (w : World) : list User * list RefreshToken :=
  (users w, refreshTokens w).

Definition with_refreshTokens (l : list RefreshToken) (w : World) : World :=
  {| users := users w; refreshTokens := l; dates := dates w;
     dateReads := dateReads w; entropy := entropy w; draws := draws w |}.

(** [new Date()] *)
Definition newDate : M World Z := fun w =>
  (dates w (dateReads w),
   {| users := users w; refreshTokens := refreshTokens w; dates := dates w;
      dateReads := S (dateReads w); entropy := entropy w; draws := draws w |}).

(** The next reading of the clock. *)
Definition now (w : World) : Z := dates w (dateReads w).

(** Responses, as far as the handlers build them. *)
Record UserView := { view_id : string; view_email : string; view_name : string }.

Inductive Body :=
| Message (message : string)
| Session (accessToken : string) (user : UserView)
| OkTrue.

Inductive Cookie :=
| Untouched
| SetCookie (cookieName value : string)
| ClearCookie (cookieName : string).

Record Response := { status : Z; body : Body; cookie : Cookie }.

Record Request := {
  cookies : gmap string string;
  body_email : option string;
  body_name : option string;
  body_password : option string
}.

Definition json (st : Z) (b : Body) (c : Cookie) : Response :=
  {| status := st; body := b; cookie := c |}.

Definition viewOf (u : User) : UserView :=
  {| view_id := _id u; view_email := email u; view_name := name u |}.

(** What [utils/tokens], [config] and the libraries provide, as
    parameters: the token digest [hashToken], the signing of an access
    token for a subject at a time, the expiry date computed from a clock
    reading, the cookie name, [String.prototype.toLowerCase],
    [bcrypt.compare], [bcrypt.hash] (its salt left out), and the [_id]
    Mongoose gives to the n-th user created. *)
Class Lib := {
  hashToken : string -> string;
  signAccess : string -> Z -> string;
  expiryFrom : Z -> Z;
  refreshCookieName : string;
  toLowerCase : string -> string;
  bcrypt_compare : string -> string -> bool;
  bcrypt_hash : string -> string;
  objectId : nat -> string
}.

Section Handlers.

Context `{Lib}.

(** Modelled from the spec: [createRefreshToken] of [utils/tokens] is
    missing; it is the spec's [issueOpaqueToken], which "generates a
    high-entropy random value". Here: the next value of the random
    source. *)
Definition createRefreshToken : M World string := fun w =>
  (entropy w (draws w),
   {| users := users w; refreshTokens := refreshTokens w; dates := dates w;
      dateReads := dateReads w; entropy := entropy w; draws := S (draws w) |}).

(** Modelled from the spec: [refreshTokenExpiresAt] of [utils/tokens] is
    missing; it gives the [expiresAt] of a record issued now. Here: a
    date computed from a reading of the clock. *)
Definition refreshTokenExpiresAt : M World Z :=
  await t <- newDate; ret (expiryFrom t).

(** Modelled from the spec: [createAccessToken] of [utils/tokens] is
    missing; it is the spec's [issueAccessAssertion], a signed claim
    [{subject, issuedAt, expiresAt}]. Here: the signature of the subject
    and a reading of the clock. *)
Definition createAccessToken (sub : string) : M World string :=
  await t <- newDate; ret (signAccess sub t).

(** [RefreshTokenModel.findOne({ tokenHash })]: the first document
    with that hash, with its position. *)
Definition RefreshTokenModel_findOne (h : string)
  : M World (option (nat * RefreshToken)) :=
  gets (fun w => list_find (fun r => tokenHash r = h) (refreshTokens w)).

(** [RefreshTokenModel.create(doc)] *)
Definition RefreshTokenModel_create (doc : RefreshToken) : M World unit :=
  modify (fun w => with_refreshTokens (refreshTokens w ++ [doc]) w).

Definition set_revokedAt (d : Z) (r : RefreshToken) : RefreshToken :=
  {| userId := userId r; tokenHash := tokenHash r;
     expiresAt := expiresAt r; revokedAt := Some d |}.

(** [stored.revokedAt = d; await stored.save()]: writes the modified
    path of the document at position [i]. *)
Definition save_revokedAt (i : nat) (d : Z) : M World unit :=
  modify (fun w => with_refreshTokens (alter (set_revokedAt d) i (refreshTokens w)) w).

(** [RefreshTokenModel.updateOne({ tokenHash, revokedAt: null },
    { revokedAt: d })]: updates the first document that matches both
    conditions, if any. *)
Definition RefreshTokenModel_updateOne (h : string) (d : Z) : M World unit :=
  modify (fun w =>
    match list_find (fun r => tokenHash r = h /\ revokedAt r = None)
                    (refreshTokens w) with
    | Some (i, _) =>
        with_refreshTokens (alter (set_revokedAt d) i (refreshTokens w)) w
    | None => w
    end).

(** [UserModel.findOne({ email })] and [UserModel.findById(id)] *)
Definition UserModel_findOne (e : string) : M World (option User) :=
  gets (fun w => snd <$> list_find (fun u => email u = e) (users w)).

Definition UserModel_findById (id : string) : M World (option User) :=
  gets (fun w => snd <$> list_find (fun u => _id u = id) (users w)).

(** [UserModel.create(doc)]: stores the document under a new [_id] and
    returns it. *)
Definition UserModel_create (e n h : string) : M World User := fun w =>
  let user := {| _id := objectId (length (users w)); email := e; name := n;
                 passwordHash := h |} in
  (user,
   {| users := users w ++ [user]; refreshTokens := refreshTokens w;
      dates := dates w; dateReads := dateReads w;
      entropy := entropy w; draws := draws w |}).

(** [router.post("/register", ...)] *)
Definition register (req : Request) : M World Response :=
  if negb (truthy (body_email req)) || negb (truthy (body_name req))
     || negb (truthy (body_password req)) then
    ret (json 400 (Message "Missing required fields") Untouched)
  else
    await existing <- UserModel_findOne (toLowerCase (String_of (body_email req)));
    match existing with
    | Some _ => ret (json 409 (Message "Email already in use") Untouched)
    | None =>
        let passwordHash := bcrypt_hash (String_of (body_password req)) in
        await user <- UserModel_create (toLowerCase (String_of (body_email req)))
                                       (String_of (body_name req)) passwordHash;
        await refreshToken <- createRefreshToken;
        await exp <- refreshTokenExpiresAt;
        exec RefreshTokenModel_create
               {| userId := _id user; tokenHash := hashToken refreshToken;
                  expiresAt := exp; revokedAt := None |};
        await accessToken <- createAccessToken (_id user);
        ret (json 201 (Session accessToken (viewOf user))
                  (SetCookie refreshCookieName refreshToken))
    end.

(** [router.post("/login", ...)] *)
Definition login (req : Request) : M World Response :=
  if negb (truthy (body_email req)) || negb (truthy (body_password req)) then
    ret (json 400 (Message "Missing credentials") Untouched)
  else
    await user <- UserModel_findOne (toLowerCase (String_of (body_email req)));
    match user with
    | None => ret (json 401 (Message "Invalid credentials") Untouched)
    | Some user =>
        if negb (bcrypt_compare (String_of (body_password req)) (passwordHash user)) then
          ret (json 401 (Message "Invalid credentials") Untouched)
        else
          await refreshToken <- createRefreshToken;
          await exp <- refreshTokenExpiresAt;
          exec RefreshTokenModel_create
                 {| userId := _id user; tokenHash := hashToken refreshToken;
                    expiresAt := exp; revokedAt := None |};
          await accessToken <- createAccessToken (_id user);
          ret (json 200 (Session accessToken (viewOf user))
                    (SetCookie refreshCookieName refreshToken))
    end.

(** [router.post("/refresh", ...)] *)
Definition refresh (req : Request) : M World Response :=
  let token := cookies req !! refreshCookieName in
  if negb (truthy token) then
    ret (json 401 (Message "Missing refresh token") Untouched)
  else
    let h := hashToken (String_of token) in
    await stored <- RefreshTokenModel_findOne h;
    match stored with
    | None => ret (json 401 (Message "Refresh token invalid") Untouched)
    | Some (i, stored) =>
        match revokedAt stored with
        | Some _ => ret (json 401 (Message "Refresh token invalid") Untouched)
        | None =>
            await d <- newDate;
            if (expiresAt stored <? d)%Z then
              ret (json 401 (Message "Refresh token invalid") Untouched)
            else
              await user <- UserModel_findById (userId stored);
              match user with
              | None => ret (json 401 (Message "User not found") Untouched)
              | Some user =>
                  await d' <- newDate;
                  exec save_revokedAt i d';
                  await newRefresh <- createRefreshToken;
                  await exp <- refreshTokenExpiresAt;
                  exec RefreshTokenModel_create
                         {| userId := _id user; tokenHash := hashToken newRefresh;
                            expiresAt := exp; revokedAt := None |};
                  await accessToken <- createAccessToken (_id user);
                  ret (json 200 (Session accessToken (viewOf user))
                            (SetCookie refreshCookieName newRefresh))
              end
        end
    end.

(** [router.post("/logout", ...)] *)
Definition logout (req : Request) : M World Response :=
  let token := cookies req !! refreshCookieName in
  exec (if truthy token then
          await d <- newDate;
          RefreshTokenModel_updateOne (hashToken (String_of token)) d
        else ret tt);
  ret (json 200 OkTrue (ClearCookie refreshCookieName)).

(** *** Which guard of [/refresh] fires

    The guards of the handler in source order: [!token], [!stored],
    [stored.revokedAt], [stored.expiresAt < new Date()], [!user]. *)

Inductive Rejection :=
| TokenMissing | TokenInvalid | TokenRevoked | TokenExpired | UserMissing.

Definition presented (req : Request) : option string :=
  cookies req !! refreshCookieName.

Definition storedFor (req : Request) (w : World) : option (nat * RefreshToken) :=
  list_find (fun r => tokenHash r = hashToken (String_of (presented req)))
            (refreshTokens w).

Definition ownerOf (r : RefreshToken) (w : World) : option User :=
  snd <$> list_find (fun u => _id u = userId r) (users w).

Definition rejection (req : Request) (w : World) : option Rejection :=
  if negb (truthy (presented req)) then Some TokenMissing
  else match storedFor req w with
       | None => Some TokenInvalid
       | Some (_, stored) =>
           match revokedAt stored with
           | Some _ => Some TokenRevoked
           | None =>
               if (expiresAt stored <? now w)%Z then Some TokenExpired
               else match ownerOf stored w with
                    | None => Some UserMissing
                    | Some _ => None
                    end
           end
       end.

Definition rejectionMessage (k : Rejection) : string :=
  match k with
  | TokenMissing => "Missing refresh token"
  | TokenInvalid | TokenRevoked | TokenExpired => "Refresh token invalid"
  | UserMissing => "User not found"
  end.

(** The world after [n] more readings of the clock. *)
Definition tick (n : nat) (w : World) : World :=
  {| users := users w; refreshTokens := refreshTokens w; dates := dates w;
     dateReads := (n + dateReads w)%nat; entropy := entropy w; draws := draws w |}.

(** The result of an accepted [/refresh], spelled out. *)
Definition rotated (i : nat) (user : User) (w : World) : Response * World :=
  let d' := dates w (S (dateReads w)) in
  let newRefresh := entropy w (draws w) in
  let exp := expiryFrom (dates w (S (S (dateReads w)))) in
  let accessToken := signAccess (_id user) (dates w (S (S (S (dateReads w))))) in
  (json 200 (Session accessToken (viewOf user))
        (SetCookie refreshCookieName newRefresh),
   {| users := users w;
      refreshTokens :=
        alter (set_revokedAt d') i (refreshTokens w)
          ++ [ {| userId := _id user; tokenHash := hashToken newRefresh;
                  expiresAt := exp; revokedAt := None |} ];
      dates := dates w; dateReads := S (S (S (S (dateReads w))));
      entropy := entropy w; draws := S (draws w) |}).

(** *** Sequences of calls *)

Inductive Call :=
| Register (req : Request)
| Login (req : Request)
| Refresh (req : Request)
| Logout (req : Request).

Definition handle (c : Call) : M World Response :=
  match c with
  | Register req => register req
  | Login req => login req
  | Refresh req => refresh req
  | Logout req => logout req
  end.

(** The calls of a list served one after the other. *)
Fixpoint serve (cs : list Call) : M World (list Response) :=
  match cs with
  | [] => ret []
  | c :: cs' =>
      await r <- handle c;
      await rs <- serve cs';
      ret (r :: rs)
  end.

(** A request that carries only the refresh cookie. *)
Definition cookieRequest (token : string) : Request :=
  {| cookies := {[ refreshCookieName := token ]};
     body_email := None; body_name := None; body_password := None |}.

(** A lineage: [n] refreshes in sequence, each presenting the cookie
    the previous response set. Yields the tokens issued on the way,
    or nothing when one of the calls is refused. *)
Fixpoint rotate (n : nat) (token : string) : M World (option (list string)) :=
  match n with
  | O => ret (Some [])
  | S n' =>
      await res <- refresh (cookieRequest token);
      match cookie res with
      | SetCookie _ token' =>
          await rest <- rotate n' token';
          ret (cons token' <$> rest)
      | _ => ret None
      end
  end.

(** *** [/refresh] as a process

    The handler suspends at each [await]; other requests run in
    between. A task is the handler between two suspensions: one
    transition performs the awaited database operation and the
    synchronous code up to the next [await]. *)

Inductive Task :=
| Start (req : Request)
| AwaitUser (i : nat) (stored : RefreshToken)
| AwaitSave (i : nat) (user : User) (d' : Z)
| AwaitCreate (user : User) (newRefresh : string) (doc : RefreshToken)
| Done (res : Response).

Definition step (t : Task) : M World Task :=
  match t with
  | Start req =>
      let token := cookies req !! refreshCookieName in
      if negb (truthy token) then
        ret (Done (json 401 (Message "Missing refresh token") Untouched))
      else
        await stored <- RefreshTokenModel_findOne (hashToken (String_of token));
        match stored with
        | None => ret (Done (json 401 (Message "Refresh token invalid") Untouched))
        | Some (i, stored) =>
            match revokedAt stored with
            | Some _ =>
                ret (Done (json 401 (Message "Refresh token invalid") Untouched))
            | None =>
                await d <- newDate;
                if (expiresAt stored <? d)%Z then
                  ret (Done (json 401 (Message "Refresh token invalid") Untouched))
                else ret (AwaitUser i stored)
            end
        end
  | AwaitUser i stored =>
      await user <- UserModel_findById (userId stored);
      match user with
      | None => ret (Done (json 401 (Message "User not found") Untouched))
      | Some user =>
          await d' <- newDate;
          ret (AwaitSave i user d')
      end
  | AwaitSave i user d' =>
      exec save_revokedAt i d';
      await newRefresh <- createRefreshToken;
      await exp <- refreshTokenExpiresAt;
      ret (AwaitCreate user newRefresh
             {| userId := _id user; tokenHash := hashToken newRefresh;
                expiresAt := exp; revokedAt := None |})
  | AwaitCreate user newRefresh doc =>
      exec RefreshTokenModel_create doc;
      await accessToken <- createAccessToken (_id user);
      ret (Done (json 200 (Session accessToken (viewOf user))
                      (SetCookie refreshCookieName newRefresh)))
  | Done res => ret (Done res)
  end.

(** Two tasks under a schedule: [true] lets the first one move,
    [false] the second. *)
Fixpoint interleave (sched : list bool) (a b : Task) : M World (Task * Task) :=
  match sched with
  | [] => ret (a, b)
  | true :: sched' => await a' <- step a; interleave sched' a' b
  | false :: sched' => await b' <- step b; interleave sched' a b'
  end.

Definition succeeded (t : Task) : bool :=
  match t with
  | Done res => (status res =? 200)%Z
  | _ => false
  end.

(** *** Notions used to state the properties *)

(** The world after a refused [/refresh]: the expiry guard reads the
    clock, the guards before it do not. *)
Definition afterRejection (k : Rejection) (w : World) : World :=
  match k with
  | TokenMissing | TokenInvalid | TokenRevoked => w
  | TokenExpired | UserMissing => tick 1 w
  end.

(** The ledger only grows: every record stays where it is, keeps its
    hash, owner and expiry, and stays revoked once revoked. *)
Definition later (l l' : list RefreshToken) : Prop :=
  forall i r, l !! i = Some r ->
    exists r', l' !! i = Some r' /\ tokenHash r' = tokenHash r /\
               userId r' = userId r /\ expiresAt r' = expiresAt r /\
               (is_Some (revokedAt r) -> is_Some (revokedAt r')).

(** A token is burnt when the record [/refresh] finds for it is revoked. *)
Definition burntIn (h : string) (l : list RefreshToken) : Prop :=
  exists i r, list_find (fun r => tokenHash r = h) l = Some (i, r) /\
              is_Some (revokedAt r).

(** The record [updateOne] picks in [/logout]. *)
Definition unrevokedFor (req : Request) (w : World) : option (nat * RefreshToken) :=
  list_find (fun r => tokenHash r = hashToken (String_of (presented req)) /\
                      revokedAt r = None)
            (refreshTokens w).

(** The hashes on the ledger. *)
Definition hashes (w : World) : list string := tokenHash <$> refreshTokens w.

(** The generator never yields a token whose hash is on the ledger or
    was yielded before, and never the empty string. *)
Definition collision_free (w : World) : Prop :=
  (forall k, (draws w <= k)%nat -> hashToken (entropy w k) ∉ hashes w) /\
  (forall j k, (draws w <= j)%nat -> (draws w <= k)%nat ->
               hashToken (entropy w j) = hashToken (entropy w k) -> j = k) /\
  (forall k, (draws w <= k)%nat -> entropy w k <> EmptyString).

(** For the next [m] readings of the clock, no reading is later than an
    expiry date computed from an earlier one. *)
Definition unexpiring (m : nat) (w : World) : Prop :=
  forall i j, (dateReads w <= i)%nat -> (i < j)%nat -> (j < dateReads w + m)%nat ->
              (dates w j <= expiryFrom (dates w i))%Z.

(** *** What a call does to the world

    The shapes the effect of a call can take, read off the four
    handlers: a refusal, a logout, a grant (login or refresh) and a
    registration. *)

(** A ledger after at most one revocation of an unrevoked record. *)
Definition revokes (l l' : list RefreshToken) : Prop :=
  l' = l \/
  exists i r d, l !! i = Some r /\ revokedAt r = None /\
                l' = <[i := set_revokedAt d r]> l.

(** The record a call issues with the next token of the generator. *)
Definition issuedFor (user : User) (w w' : World) (doc : RefreshToken) : Prop :=
  userId doc = _id user /\
  tokenHash doc = hashToken (entropy w (draws w)) /\
  revokedAt doc = None /\
  exists k, (dateReads w <= k)%nat /\ (k < dateReads w')%nat /\
            expiresAt doc = expiryFrom (dates w k).

Inductive Effect (w : World) (r : Response) (w' : World) : Prop :=
| Refused (m : string) :
    body r = Message m -> cookie r = Untouched ->
    status r = 400%Z \/ status r = 401%Z \/ status r = 409%Z ->
    users w' = users w -> refreshTokens w' = refreshTokens w ->
    draws w' = draws w ->
    Effect w r w'
| Cleared :
    r = json 200 OkTrue (ClearCookie refreshCookieName) ->
    users w' = users w -> revokes (refreshTokens w) (refreshTokens w') ->
    draws w' = draws w ->
    Effect w r w'
| Granted (user : User) (a : string) (base : list RefreshToken) (doc : RefreshToken) :
    r = json 200 (Session a (viewOf user))
             (SetCookie refreshCookieName (entropy w (draws w))) ->
    users w' = users w -> user ∈ users w ->
    revokes (refreshTokens w) base ->
    refreshTokens w' = (base ++ [doc])%list ->
    issuedFor user w w' doc ->
    draws w' = S (draws w) ->
    Effect w r w'
| Registered (user : User) (a : string) (doc : RefreshToken) :
    r = json 201 (Session a (viewOf user))
             (SetCookie refreshCookieName (entropy w (draws w))) ->
    users w' = (users w ++ [user])%list ->
    email user ∉ email <$> users w ->
    refreshTokens w' = (refreshTokens w ++ [doc])%list ->
    issuedFor user w w' doc ->
    draws w' = S (draws w) ->
    Effect w r w'.

(** Every record stays where it is and keeps its hash, owner, expiry
    and, once it has one, its revocation date. *)
Definition kept (l l' : list RefreshToken) : Prop :=
  forall i r, l !! i = Some r ->
    exists r', l' !! i = Some r' /\ tokenHash r' = tokenHash r /\
               userId r' = userId r /\ expiresAt r' = expiresAt r /\
               (forall d, revokedAt r = Some d -> revokedAt r' = Some d).

(** Every record on the ledger belongs to a user of the collection. *)
Definition owned (w : World) : Prop :=
  forall r, r ∈ refreshTokens w -> exists u, u ∈ users w /\ _id u = userId r.

(** The response sets the refresh cookie. *)
Definition setsCookie (r : Response) : bool :=
  match cookie r with
  | SetCookie _ _ => true
  | _ => false
  end.

(** The number of transitions a schedule gives to the first call
    ([true]) or to the second ([false]). *)
Definition moves (who : bool) (sched : list bool) : nat :=
  length (filter (fun b => b = who) sched).

(** How far a task is: 0 before the lookup of the record, 1 before the
    lookup of the user, 2 before the save of the revocation, 3 before
    the creation of the new record, 4 when it has answered. *)
Definition phase (t : Task) : nat :=
  match t with
  | Start _ => 0
  | AwaitUser _ _ => 1
  | AwaitSave _ _ _ => 2
  | AwaitCreate _ _ _ => 3
  | Done _ => 4
  end.

(** A task that is past the guards of the handler, or has answered 200
    and set the cookie. *)
Definition admitted (w : World) (t : Task) : Prop :=
  match t with
  | Start _ => False
  | AwaitUser _ stored => is_Some (ownerOf stored w)
  | AwaitSave _ _ _ | AwaitCreate _ _ _ => True
  | Done res => status res = 200%Z /\ setsCookie res = true
  end.

(** A call for [req] at phase [p] that has not saved yet, the record
    found being [stored] at position [i] and its owner [user]. *)
Definition early (req : Request) (i : nat) (stored : RefreshToken) (user : User)
    (p : nat) (t : Task) : Prop :=
  match p with
  | 0 => t = Start req
  | 1 => t = AwaitUser i stored
  | 2 => exists d', t = AwaitSave i user d'
  | _ => False
  end.

(** A task run on its own for [n] transitions. *)
Fixpoint steps (n : nat) (t : Task) : M World Task :=
  match n with
  | O => ret t
  | S n' => await t' <- step t; steps n' t'
  end.

End Handlers.

End Auth.

(** ** Realtime gateway: [socket.ts] *)

Module Gateway.

(** [jwt.verify(token, jwtSecret)] at a given time: [None] when it
    throws, otherwise the payload's [sub], if it has one. *)
Class Jwt := { jwt_verify : string -> Z -> option (option string) }.

Record Membership := { workspaceId : string; userId : string; role : string }.

(** A connected socket: [socket.data.userId] and the rooms it joined.
    The private room socket.io keeps for each socket under its own id is
    left out; no id has the form of a workspace room. *)
Record Socket := { data_userId : string; rooms : gset string }.

(** The server: its connected sockets by connection id, and the next
    id to hand out (socket.io never reuses an id). *)
Record Server := { sockets : gmap nat Socket; nextId : nat }.

(** The module-level [io] and the Membership collection. *)
Record World := { io : option Server; memberships : list Membership }.

(** [socket.handshake.auth?.token]: absent, a string, or a value of
    another type. *)
Inductive AuthToken := Absent | Str (s : string) | NotAString.

Record AckPayload := { ok : bool; message : option string }.

Record Delivery := { to : nat; event : string; payload : string }.

Definition workspaceRoom (workspaceId : string) : string :=
  "workspace:" ++ workspaceId.

(** The outcome [next(...)] of the [io.use] middleware. *)
Inductive Next := Proceed (userId : string) | Fail (error : string).

Section Handlers.

Context `{Jwt}.

(** The [io.use] middleware. *)
Definition authMiddleware (time : Z) (token : AuthToken) : Next :=
  match token with
  | Absent | NotAString => Fail "Unauthorized"
  | Str token =>
      if negb (truthy (Some token)) then Fail "Unauthorized"
      else match jwt_verify token time with
           | Some sub =>
               if negb (truthy sub) then Fail "Unauthorized"
               else Proceed (String_of sub)
           | None => Fail "Unauthorized"
           end
  end.

(** [MembershipModel.findOne({ workspaceId, userId })] *)
Definition MembershipModel_findOne (wid uid : string) (ms : list Membership)
  : option Membership :=
  snd <$> list_find (fun m => workspaceId m = wid /\ userId m = uid) ms.

(** [socket.join(room)] *)
Definition join (room : string) (s : Socket) : Socket :=
  {| data_userId := data_userId s; rooms := {[ room ]} ∪ rooms s |}.

(** The [join_workspace] listener of one socket: the payload passed
    to [ack] and the socket afterwards. *)
Definition join_workspace (ms : list Membership) (s : Socket)
    (wid : option string) : AckPayload * Socket :=
  if negb (truthy wid) then
    ({| ok := false; message := Some "Workspace required" |}, s)
  else
    match MembershipModel_findOne (String_of wid) (data_userId s) ms with
    | None => ({| ok := false; message := Some "Forbidden" |}, s)
    | Some _ =>
        ({| ok := true; message := None |},
         join (workspaceRoom (String_of wid)) s)
    end.

(** [io.to(room).emit(event, payload)]: one delivery per socket in
    the room. *)
Definition to_emit (room ev pl : string) (srv : Server) : list Delivery :=
  (fun p => {| to := p.1; event := ev; payload := pl |})
    <$> filter (fun p => room ∈ rooms p.2) (map_to_list (sockets srv)).

(** [emitWorkspaceEvent] *)
Definition emitWorkspaceEvent (w : World) (wid ev pl : string) : list Delivery :=
  match io w with
  | None => []
  | Some srv => to_emit (workspaceRoom wid) ev pl srv
  end.

(** What happens to the gateway: [initSocket], a connection attempt, a
    [join_workspace] event on a socket ([ack] tells whether the client
    passed an acknowledgement callback), a disconnection (socket.io
    removes the socket from its rooms), a call of [emitWorkspaceEvent],
    and a change of the Membership collection by the rest of the
    application. *)
Inductive Action :=
| InitSocket
| Connect (time : Z) (token : AuthToken)
| JoinWorkspace (sid : nat) (wid : option string) (ack : bool)
| Disconnect (sid : nat)
| Emit (wid ev pl : string)
| SetMemberships (ms : list Membership).

Inductive Output :=
| Silent
| Refused (error : string)
| Connected (sid : nat)
| Ack (p : AckPayload)
| Delivered (ds : list Delivery).

Definition with_io (srv : Server) (w : World) : World :=
  {| io := Some srv; memberships := memberships w |}.

Definition act (a : Action) : M World Output := fun w =>
  match a with
  | InitSocket =>
      (Silent, with_io {| sockets := ∅; nextId := 0 |} w)
  | Connect time token =>
      match io w with
      | None => (Silent, w)
      | Some srv =>
          match authMiddleware time token with
          | Fail e => (Refused e, w)
          | Proceed uid =>
              (Connected (nextId srv),
               with_io {| sockets := <[ nextId srv :=
                                         {| data_userId := uid; rooms := ∅ |} ]>
                                       (sockets srv);
                          nextId := S (nextId srv) |} w)
          end
      end
  | JoinWorkspace sid wid ack =>
      match io w with
      | None => (Silent, w)
      | Some srv =>
          match sockets srv !! sid with
          | None => (Silent, w)
          | Some s =>
              let (p, s') := join_workspace (memberships w) s wid in
              (if ack then Ack p else Silent,
               with_io {| sockets := <[ sid := s' ]> (sockets srv);
                          nextId := nextId srv |} w)
          end
      end
  | Disconnect sid =>
      match io w with
      | None => (Silent, w)
      | Some srv =>
          (Silent,
           with_io {| sockets := delete sid (sockets srv);
                      nextId := nextId srv |} w)
      end
  | Emit wid ev pl => (Delivered (emitWorkspaceEvent w wid ev pl), w)
  | SetMemberships ms => (Silent, {| io := io w; memberships := ms |})
  end.

Fixpoint run (tr : list Action) : M World (list Output) :=
  match tr with
  | [] => ret []
  | a :: tr' =>
      await o <- act a;
      await os <- run tr';
      ret (o :: os)
  end.

(** Before [initSocket]. *)
Definition boot (ms : list Membership) : World :=
  {| io := None; memberships := ms |}.

(** *** Notions used to state the properties *)

(** A connection is joined to a workspace when its socket is in the
    workspace's room. *)
Definition joined (w : World) (sid : nat) (wid : string) : Prop :=
  exists srv s, io w = Some srv /\ sockets srv !! sid = Some s /\
                workspaceRoom wid ∈ rooms s.

(** The membership check of [join_workspace] passes for the connection. *)
Definition authorized (w : World) (sid : nat) (wid : string) : Prop :=
  exists srv s, io w = Some srv /\ sockets srv !! sid = Some s /\ wid <> EmptyString /\
                is_Some (MembershipModel_findOne wid (data_userId s) (memberships w)).

(** The world before the [k]-th action of a trace. *)
Definition before (tr : list Action) (k : nat) (w : World) : World :=
  (run (take k tr) w).2.

(** Connection ids are handed out in increasing order. *)
Definition fresh_ids (w : World) : Prop :=
  forall srv sid, io w = Some srv -> is_Some (sockets srv !! sid) ->
                  (sid < nextId srv)%nat.

(** The membership tables installed along a trace. *)
Definition tables (tr : list Action) : list (list Membership) :=
  omap (fun a => match a with SetMemberships ms => Some ms | _ => None end) tr.

(** Every membership of a table satisfies [P]. *)
Definition permitted (P : string -> string -> Prop) (ms : list Membership) : Prop :=
  forall m, m ∈ ms -> P (workspaceId m) (userId m).

(** Every socket is only in rooms of workspaces that [P] relates to
    its user. *)
Definition confined (P : string -> string -> Prop) (w : World) : Prop :=
  forall srv sid s wid,
    io w = Some srv -> sockets srv !! sid = Some s ->
    workspaceRoom wid ∈ rooms s -> P wid (data_userId s).

End Handlers.

End Gateway.

(** ** Linking issues to an article: [KnowledgeBasePage]

    The link state of the knowledge-base page (the last of the three
    documents of [frontend/src/pages/IssueDetail.tsx]): the state
    updaters of [handleLinkSelect] and [handleRemoveLinked], and the
    values the page computes from the state on each render. *)

Module KnowledgeBase.

Record Issue := {
  _id : string;
  ticketId : option string;
  title : string;
  status : string
}.

(** The three pieces of state the link panel uses. *)
Record State := {
  selectedIssueIds : list string;
  linkInput : string;
  extraLinkedIssues : list Issue
}.

(** [(prev) => (prev.includes(id) ? prev : [...prev, id])] *)
Definition linkId (id : string) (prev : list string) : list string :=
  if decide (id ∈ prev) then prev else prev ++ [id].

(** [(prev) => prev.some((item) => item._id === issue._id) ? prev
    : [...prev, issue]] *)
Definition keepIssue (issue : Issue) (prev : list Issue) : list Issue :=
  if decide (Exists (fun item => _id item = _id issue) prev) then prev
  else prev ++ [issue].

Definition handleLinkSelect (issue : Issue) (st : State) : State :=
  {| selectedIssueIds := linkId (_id issue) (selectedIssueIds st);
     extraLinkedIssues := keepIssue issue (extraLinkedIssues st);
     linkInput := EmptyString |}.

Definition handleRemoveLinked (issueId : string) (st : State) : State :=
  {| selectedIssueIds := filter (fun id => id <> issueId) (selectedIssueIds st);
     extraLinkedIssues := extraLinkedIssues st;
     linkInput := linkInput st |}.

(** The earlier version of the page (the second document of the file)
    links and unlinks with one button per issue:
    [(prev) => prev.includes(issue._id)
       ? prev.filter((id) => id !== issue._id) : [...prev, issue._id]] *)
Definition toggleLinked (issueId : string) (prev : list string) : list string :=
  if decide (issueId ∈ prev) then filter (fun id => id <> issueId) prev
  else prev ++ [issueId].

(** [combined.set(issue._id, issue)] for each issue in turn. *)
Definition setAll (m : gmap string Issue) (l : list Issue) : gmap string Issue :=
  foldl (fun m issue => <[_id issue := issue]> m) m l.

(** The [linkedIssues] memo: the selected ids looked up in the map of
    the workspace's issues overlaid with the extra ones; ids without an
    issue are dropped. *)
Definition linkedIssues (issues : list Issue) (st : State) : list Issue :=
  let combined := setAll (setAll ∅ issues) (extraLinkedIssues st) in
  omap (fun id => combined !! id) (selectedIssueIds st).

(** The ids the effect fetches: the selected ids in neither list. *)
Definition missing (issues : list Issue) (st : State) : list string :=
  let combined : gset string :=
    list_to_set ((_id <$> issues) ++ (_id <$> extraLinkedIssues st)) in
  filter (fun id => id ∉ combined) (selectedIssueIds st).

Section Suggestions.

(** [String.prototype.trim], [toLowerCase] and [includes]. *)
Variable trim : string -> string.
Variable toLowerCase : string -> string.
Variable includes : string -> string -> bool.

Definition matchesQuery (q : string) (issue : Issue) : bool :=
  let ticket := match ticketId issue with
                | Some t => toLowerCase t
                | None => EmptyString
                end in
  includes ticket q || includes (toLowerCase (title issue)) q.

(** [issueSuggestions] *)
Definition issueSuggestions (issues : list Issue) (st : State) : list Issue :=
  let normalizedQuery := toLowerCase (trim (linkInput st)) in
  if truthy (Some normalizedQuery) then
    take 6 (filter (fun issue => matchesQuery normalizedQuery issue = true)
              (filter (fun issue => _id issue ∉ selectedIssueIds st) issues))
  else [].

End Suggestions.

End KnowledgeBase.

(** ** The dashboard: [DashboardPage]

    The pure parts of the dashboard page (the second document of
    [unnamed/part_004]): the labels, [buildIssueUpdateSegments] and the
    counts of the issue-flow widget. *)

Module Dashboard.

(** An issue as the page uses it. [assigneeId] is the populated
    assignee, if any, holding its name, if any. *)
Record Issue := {
  title : string;
  status : string;
  createdAt : string;
  updatedAt : option string;
  assigneeId : option (option string)
}.

(** An entry of [meta.changes]; [null] and [undefined] are [None]. *)
Record Change := { from : option string; to : option string }.

(** A segment as rendered, without its icon: a change "label from ->
    to", or a note. [key] is the React key. *)
Inductive Segment :=
| Changed (key label from to : string)
| Noted (key text : string).

Definition key (s : Segment) : string :=
  match s with
  | Changed k _ _ _ => k
  | Noted k _ => k
  end.

Definition priorityLabel (value : option string) : string :=
  if decide (value = Some "LOW") then "Low"
  else if decide (value = Some "MEDIUM") then "Medium"
  else if decide (value = Some "HIGH") then "High"
  else "Unknown".

Definition statusLabel (value : option string) : string :=
  if decide (value = Some "OPEN") then "Open"
  else if decide (value = Some "IN_PROGRESS") then "In progress"
  else if decide (value = Some "DONE") then "Done"
  else "Unknown".

(** The double-quote character. *)
Definition quote : string :=
  String (Ascii false true false false false true false false) EmptyString.

(** The local [withChange] of [buildIssueUpdateSegments], with the
    [segments] it pushes to passed along. *)
Definition withChange (fields : list string) (changes : option (gmap string Change))
    (key label : string) (format : option string -> string) (fallback : string)
    (segments : list Segment) : list Segment :=
  match changes ≫= (fun c => c !! key) with
  | Some change =>
      segments ++ [Changed key label (format (from change)) (format (to change))]
  | None =>
      if decide (key ∈ fields) then segments ++ [Noted key fallback]
      else segments
  end.

(** [if (fields.includes(key)) segments.push(...)] *)
Definition note (fields : list string) (key text : string)
    (segments : list Segment) : list Segment :=
  if decide (key ∈ fields) then segments ++ [Noted key text] else segments.

(** [issue?.assigneeId?.name] *)
Definition assigneeName (issue : option Issue) : option string :=
  match issue with
  | Some issue =>
      match assigneeId issue with
      | Some name => name
      | None => None
      end
  | None => None
  end.

Definition buildIssueUpdateSegments (fields : option (list string))
    (changes : option (gmap string Change)) (issue : option Issue)
    (memberMap : gmap string string) : list Segment :=
  match fields with
  | None | Some [] => []
  | Some fields =>
      let segments := [] in
      let segments :=
        withChange fields changes "priority" "priority"
          (fun value => if truthy value then priorityLabel value else "Unknown")
          "priority updated" segments in
      let segments :=
        withChange fields changes "status" "status"
          (fun value => if truthy value then statusLabel value else "Unknown")
          "status updated" segments in
      let segments :=
        withChange fields changes "assigneeId" "assignee"
          (fun value =>
             if negb (truthy value) then "Unassigned"
             else default "Unassigned" (memberMap !! String_of value))
          (if truthy (assigneeName issue)
           then "assigned to " ++ String_of (assigneeName issue)
           else "assignee updated") segments in
      let segments :=
        withChange fields changes "title" "title"
          (fun value =>
             if truthy value then quote ++ String_of value ++ quote
             else "Untitled")
          (if truthy (title <$> issue)
           then "renamed to " ++ quote ++ String_of (title <$> issue) ++ quote
           else "title updated") segments in
      let segments := note fields "labels" "labels updated" segments in
      let segments := note fields "description" "description updated" segments in
      let segments := note fields "dueDate" "due date updated" segments in
      segments
  end.

(** The keys [buildIssueUpdateSegments] goes through, in its order:
    those that show a change, then those that are only noted. *)
Definition changeKeys : list string := ["priority"; "status"; "assigneeId"; "title"].
Definition noteKeys : list string := ["labels"; "description"; "dueDate"].

(** *** The issue-flow widget *)

Section Counts.

(** [new Date(s).getTime()]: [None] for an invalid date, with which
    every comparison is false. *)
Variable time : string -> option Z.

(** [new Date(s) >= issueWindowStart] *)
Definition since (issueWindowStart : Z) (s : string) : bool :=
  match time s with
  | Some t => (issueWindowStart <=? t)%Z
  | None => false
  end.

Definition createdCount (issues : list Issue) (issueWindowStart : Z) : nat :=
  length (filter (fun issue => since issueWindowStart (createdAt issue) = true) issues).

Definition resolvedCount (issues : list Issue) (issueWindowStart : Z) : nat :=
  length (filter (fun issue =>
                    status issue = "DONE" /\
                    since issueWindowStart
                      (default (createdAt issue) (updatedAt issue)) = true)
                 issues).

Definition unassignedCount (issues : list Issue) (issueWindowStart : Z) : nat :=
  length (filter (fun issue =>
                    assigneeId issue = None /\
                    since issueWindowStart (createdAt issue) = true)
                 issues).

(** [Math.max(createdCount, resolvedCount, 1)] *)
Definition maxCount (issues : list Issue) (issueWindowStart : Z) : nat :=
  Nat.max (Nat.max (createdCount issues issueWindowStart)
                   (resolvedCount issues issueWindowStart)) 1.

(** The three status badges. *)
Definition statusCount (st : string) (issues : list Issue) : nat :=
  length (filter (fun issue => status issue = st) issues).

End Counts.

End Dashboard.

(** ** Concrete worlds *)

Module Demo.

Import Auth Gateway.

(** A stand-in library: tagged strings instead of digests and
    signatures, a one-week expiry. *)
Definition lib : Lib := {|
  hashToken := fun s => "sha256:" ++ s;
  signAccess := fun sub t => "jwt:" ++ sub;
  expiryFrom := fun t => (t + 604800000)%Z;
  refreshCookieName := "refreshToken";
  toLowerCase := fun s => s;
  bcrypt_compare := fun pw h => String.eqb ("bcrypt:" ++ pw) h;
  bcrypt_hash := fun pw => "bcrypt:" ++ pw;
  objectId := fun n => "u" ++ pretty (S n)
|}.

Definition alice : User :=
  {| _id := "u1"; email := "alice@example.com"; name := "Alice";
     passwordHash := "bcrypt:wonderland" |}.

Definition issued (owner token : string) (exp : Z) : RefreshToken :=
  {| Auth.userId := owner; tokenHash := "sha256:" ++ token;
     expiresAt := exp; revokedAt := None |}.

(** Alice logged in twice: two valid refresh tokens, "first" and
    "second". The clock advances one second per reading; the generator
    yields tok0, tok1, ... *)
Definition twoLogins : Auth.World :=
  {| users := [alice];
     refreshTokens := [issued "u1" "first" 900000; issued "u1" "second" 900000];
     dates := fun n => (1000 * Z.of_nat n)%Z;
     dateReads := 0;
     entropy := fun n => "tok" ++ pretty n;
     draws := 0 |}.

(** The same after "first" has been used once. *)
Definition afterRotation : Auth.World :=
  (@refresh lib (@cookieRequest lib "first") twoLogins).2.

(** Alice's account is gone, her refresh token is not. *)
Definition orphaned : Auth.World :=
  {| users := [];
     refreshTokens := [issued "u1" "first" 900000];
     dates := fun n => (1000 * Z.of_nat n)%Z;
     dateReads := 0;
     entropy := fun n => "tok" ++ pretty n;
     draws := 0 |}.


(** Both calls look the record up before either saves. *)
Definition overlap : list bool :=
  [true; false; true; true; true; false; false; false].

Definition loginRequest (e p : string) : Request :=
  {| cookies := ∅; body_email := Some e; body_name := None;
     body_password := Some p |}.

(** A token is accepted when it is "good:" followed by the subject. *)
Definition jwt : Jwt := {|
  jwt_verify := fun token time =>
    match token with
    | String "g"%char (String "o"%char (String "o"%char
        (String "d"%char (String ":"%char sub)))) =>
        Some (Some sub)
    | _ => None
    end
|}.

Definition member (wid uid : string) : Membership :=
  {| workspaceId := wid; Gateway.userId := uid; role := "MEMBER" |}.

(** A is a member of W1 and W2, B of W1 only. *)
Definition directory : list Membership :=
  [member "W1" "A"; member "W2" "A"; member "W1" "B"].

Definition started : Gateway.World :=
  {| io := Some {| sockets := ∅; nextId := 0 |}; memberships := directory |}.

Definition aliceSocket : Socket := {| data_userId := "A"; rooms := ∅ |}.

Definition connectedA : Gateway.World :=
  {| io := Some {| sockets := {[ 0%nat := aliceSocket ]}; nextId := 1 |};
     memberships := directory |}.

(** A and B connect; A joins W2, B tries to; then an event is published
    to W2. *)
Definition session : list Action :=
  [InitSocket;
   Connect 0 (Str "good:A");
   Connect 0 (Str "good:B");
   JoinWorkspace 0 (Some "W2") true;
   JoinWorkspace 1 (Some "W2") true;
   Emit "W2" "issue_created" "{issueId}"].

Definition registerRequest (e n p : string) : Request :=
  {| cookies := ∅; body_email := Some e; body_name := Some n;
     body_password := Some p |}.

(** An issue of the workspace, and a page on which another one is
    linked. *)
Definition issueB : KnowledgeBase.Issue :=
  {| KnowledgeBase._id := "i2"; KnowledgeBase.ticketId := Some "SD-2";
     KnowledgeBase.title := "Logout hangs"; KnowledgeBase.status := "DONE" |}.

Definition page : KnowledgeBase.State :=
  {| KnowledgeBase.selectedIssueIds := ["i1"];
     KnowledgeBase.linkInput := "log";
     KnowledgeBase.extraLinkedIssues := [] |}.

End Demo.

(** * Properties *)

Lemma truthy_Some v : truthy v = true <-> exists s, v = Some s /\ s <> EmptyString.
Proof.
  destruct v as [s|]; simpl.
  - rewrite negb_true_iff. split.
    + intros Hs. exists s. split; [done|]. intros ->. by rewrite String.eqb_refl in Hs.
    + intros (s' & [= <-] & Hne). by apply String.eqb_neq.
  - split; [done|]. by intros (? & ? & _).
Qed.

Lemma truthy_false v : truthy v = false <-> v = None \/ v = Some EmptyString.
Proof.
  destruct v as [s|]; simpl.
  - rewrite negb_false_iff, String.eqb_eq. split.
    + intros ->. by right.
    + by intros [?|[= ->]].
  - split; [by left | done].
Qed.

(** ** First matches survive updates that keep the searched field *)

Section ListFind.

Context {A : Type} (P : A -> Prop) `{!forall x, Decision (P x)}.

Lemma list_find_alter_keep (f : A -> A) (i : nat) (l : list A) j x :
  (forall y, P (f y) <-> P y) ->
  list_find P l = Some (j, x) ->
  list_find P (alter f i l) = Some (j, if decide (i = j) then f x else x).
Proof.
  intros Hf (Hj & HP & Hlt)%list_find_Some. apply list_find_Some.
  split_and!.
  - destruct (decide (i = j)) as [->|Hne].
    + by rewrite list_lookup_alter_eq, Hj.
    + by rewrite list_lookup_alter_ne.
  - case_decide; [by apply Hf | done].
  - intros k y Hk Hlt'. destruct (decide (i = k)) as [->|Hne].
    + rewrite list_lookup_alter_eq in Hk.
      apply fmap_Some in Hk as (z & Hz & ->). rewrite Hf. eauto.
    + rewrite list_lookup_alter_ne in Hk by done. eauto.
Qed.

Lemma list_find_alter_None (f : A -> A) (i : nat) (l : list A) :
  (forall y, P (f y) <-> P y) ->
  list_find P l = None -> list_find P (alter f i l) = None.
Proof.
  intros Hf Hnone. apply list_find_None, Forall_lookup. intros k y Hk.
  assert (Hall := proj1 (list_find_None P l) Hnone).
  rewrite Forall_lookup in Hall.
  destruct (decide (i = k)) as [->|Hne].
  - rewrite list_lookup_alter_eq in Hk.
    apply fmap_Some in Hk as (z & Hz & ->). rewrite Hf. eauto.
  - rewrite list_lookup_alter_ne in Hk by done. eauto.
Qed.

End ListFind.

(** ** The session protocol *)

Section AuthFacts.

Import Auth.
Context `{Lib}.

Lemma refresh_rejected req w k :
  rejection req w = Some k ->
  refresh req w = (json 401 (Message (rejectionMessage k)) Untouched, afterRejection k w).
Proof.
  unfold rejection, refresh, storedFor, ownerOf, presented, now.
  destruct (truthy (cookies req !! refreshCookieName)); simpl; [|by intros [= <-]].
  unfold bind, RefreshTokenModel_findOne, UserModel_findById, gets, ret; simpl.
  destruct (list_find _ (refreshTokens w)) as [[i stored]|]; [|by intros [= <-]].
  destruct (revokedAt stored); [by intros [= <-]|].
  destruct (expiresAt stored <? dates w (dateReads w))%Z; [by intros [= <-]|].
  simpl. destruct (list_find _ (users w)) as [[j user]|]; simpl; [done|].
  by intros [= <-].
Qed.

Lemma refresh_accepted req w :
  rejection req w = None ->
  exists i stored user,
    storedFor req w = Some (i, stored) /\
    revokedAt stored = None /\
    (now w <= expiresAt stored)%Z /\
    ownerOf stored w = Some user /\
    _id user = userId stored /\
    refresh req w = rotated i user w.
Proof.
  unfold rejection, refresh, storedFor, ownerOf, presented, now.
  destruct (truthy (cookies req !! refreshCookieName)); simpl; [|done].
  unfold bind, RefreshTokenModel_findOne, UserModel_findById, gets, ret; simpl.
  destruct (list_find _ (refreshTokens w)) as [[i stored]|]; [|done].
  destruct (revokedAt stored) eqn:Hrev; [done|].
  destruct (expiresAt stored <? dates w (dateReads w))%Z eqn:Hexp; [done|].
  simpl. destruct (list_find _ (users w)) as [[j user]|] eqn:Hu; simpl; [|done].
  intros _. exists i, stored, user. split_and!; try done.
  - by apply Z.ltb_ge.
  - by rewrite Hu.
  - by apply list_find_Some in Hu as (_ & ? & _).
Qed.

Lemma refresh_status req w :
  status (refresh req w).1 = 200%Z <-> rejection req w = None.
Proof.
  destruct (rejection req w) as [k|] eqn:Hk.
  - rewrite (refresh_rejected _ _ _ Hk). simpl. split; [lia | done].
  - destruct (refresh_accepted _ _ Hk) as (i & stored & user & _ & _ & _ & _ & _ & ->).
    done.
Qed.

Lemma refresh_status_401 req w :
  status (refresh req w).1 = 401%Z <-> is_Some (rejection req w).
Proof.
  destruct (rejection req w) as [k|] eqn:Hk.
  - rewrite (refresh_rejected _ _ _ Hk). simpl. split; [eauto | done].
  - destruct (refresh_accepted _ _ Hk) as (i & stored & user & _ & _ & _ & _ & _ & ->).
    simpl. split; [lia | by intros [? ?]].
Qed.

(** *** The ledger only grows, and a revoked record stays revoked *)

Lemma later_refl l : later l l.
Proof. intros i r Hi. exists r. by split_and!. Qed.

Lemma later_trans l1 l2 l3 : later l1 l2 -> later l2 l3 -> later l1 l3.
Proof.
  intros H12 H23 i r Hi.
  destruct (H12 _ _ Hi) as (r2 & Hi2 & Hh & Hu & He & Hr).
  destruct (H23 _ _ Hi2) as (r3 & Hi3 & Hh3 & Hu3 & He3 & Hr3).
  exists r3. split_and!; [done | congruence.. | auto].
Qed.

Lemma later_app l k : later l (l ++ k).
Proof.
  intros i r Hi. exists r. split_and!; try done.
  by apply lookup_app_l_Some.
Qed.

Lemma later_revoke d i l : later l (alter (set_revokedAt d) i l).
Proof.
  intros j r Hj. destruct (decide (i = j)) as [->|Hne].
  - exists (set_revokedAt d r). rewrite list_lookup_alter_eq, Hj.
    by split_and!.
  - exists r. rewrite list_lookup_alter_ne by done. by split_and!.
Qed.

Lemma login_later req w : later (refreshTokens w) (refreshTokens (login req w).2).
Proof.
  unfold login.
  destruct (negb (truthy (body_email req)) || negb (truthy (body_password req)));
    [apply later_refl|].
  unfold bind, UserModel_findOne, gets, ret; simpl.
  destruct (list_find _ (users w)) as [[j user]|]; simpl; [|apply later_refl].
  destruct (bcrypt_compare _ _); simpl; [|apply later_refl].
  apply later_app.
Qed.

Lemma register_later req w :
  later (refreshTokens w) (refreshTokens (register req w).2).
Proof.
  unfold register.
  destruct (negb (truthy (body_email req)) || negb (truthy (body_name req))
            || negb (truthy (body_password req)));
    [apply later_refl|].
  unfold bind, UserModel_findOne, gets, ret; simpl.
  destruct (list_find _ (users w)) as [[j user]|]; simpl; [apply later_refl|].
  apply later_app.
Qed.

Lemma refresh_later req w : later (refreshTokens w) (refreshTokens (refresh req w).2).
Proof.
  destruct (rejection req w) as [k|] eqn:Hk.
  - rewrite (refresh_rejected _ _ _ Hk). destruct k; apply later_refl.
  - destruct (refresh_accepted _ _ Hk) as (i & stored & user & _ & _ & _ & _ & _ & ->).
    simpl. eapply later_trans; [apply later_revoke | apply later_app].
Qed.

Lemma logout_later req w : later (refreshTokens w) (refreshTokens (logout req w).2).
Proof.
  unfold logout, bind, ret.
  destruct (truthy (cookies req !! refreshCookieName)); simpl; [|apply later_refl].
  unfold RefreshTokenModel_updateOne, modify; simpl.
  destruct (list_find _ (refreshTokens w)) as [[i r]|]; simpl;
    [apply later_revoke | apply later_refl].
Qed.

Lemma handle_later c w : later (refreshTokens w) (refreshTokens (handle c w).2).
Proof.
  destruct c;
    [apply register_later | apply login_later | apply refresh_later
     | apply logout_later].
Qed.

Lemma serve_later cs w : later (refreshTokens w) (refreshTokens (serve cs w).2).
Proof.
  revert w. induction cs as [|c cs IH]; intros w; simpl; [apply later_refl|].
  unfold bind. destruct (handle c w) as [r w1] eqn:Hc.
  specialize (IH w1). destruct (serve cs w1) as [rs w2]. simpl in *.
  eapply later_trans; [|exact IH].
  pose proof (handle_later c w) as Hl. by rewrite Hc in Hl.
Qed.

Lemma burntIn_later h l l' : later l l' -> burntIn h l -> burntIn h l'.
Proof.
  intros Hl (i & r & (Hi & Hh & Hlt)%list_find_Some & Hrev).
  destruct (Hl _ _ Hi) as (r' & Hi' & Hh' & _ & _ & Hrev').
  exists i, r'. split; [|auto].
  apply list_find_Some. split_and!; [done | congruence |].
  intros j y Hj Hji Hy.
  destruct (lookup_lt_is_Some_2 l j) as [x Hx].
  { apply lookup_lt_Some in Hi. lia. }
  destruct (Hl _ _ Hx) as (y' & Hy' & Hhy & _).
  rewrite Hj in Hy'. injection Hy' as <-.
  apply (Hlt j x Hx Hji). congruence.
Qed.

Lemma burnt_rejected req w :
  truthy (presented req) = true ->
  burntIn (hashToken (String_of (presented req))) (refreshTokens w) ->
  rejection req w = Some TokenRevoked.
Proof.
  intros Ht (i & r & Hfind & [d Hrev]).
  unfold rejection, storedFor. by rewrite Ht, Hfind, Hrev.
Qed.

(** *** Rotation *)

Lemma presented_cookieRequest t : presented (cookieRequest t) = Some t.
Proof. unfold presented, cookieRequest; simpl. apply lookup_singleton_eq. Qed.

Lemma alter_found (h : string) (f : RefreshToken -> RefreshToken) i r l :
  list_find (fun r => tokenHash r = h) l = Some (i, r) ->
  alter f i l = <[i := f r]> l.
Proof.
  intros (Hi & _)%list_find_Some.
  apply list_eq. intros j. destruct (decide (i = j)) as [->|Hne].
  - rewrite list_lookup_alter_eq, Hi. simpl.
    symmetry. apply list_lookup_insert_eq. by eapply lookup_lt_Some.
  - by rewrite list_lookup_alter_ne, list_lookup_insert_ne.
Qed.

Lemma rotated_burnt req i stored user w :
  storedFor req w = Some (i, stored) ->
  burntIn (hashToken (String_of (presented req)))
          (refreshTokens (rotated i user w).2).
Proof.
  intros Hs. unfold rotated; simpl.
  exists i, (set_revokedAt (dates w (S (dateReads w))) stored). split; [|by eexists].
  apply list_find_app_l.
  rewrite (list_find_alter_keep _ (set_revokedAt _) i _ i stored); [|done|exact Hs].
  by rewrite decide_True.
Qed.

(** One unfolding of a lineage. *)
Lemma rotate_S n t w toks w' :
  rotate (S n) t w = (Some toks, w') ->
  exists i stored user rest,
    rejection (cookieRequest t) w = None /\
    storedFor (cookieRequest t) w = Some (i, stored) /\
    toks = entropy w (draws w) :: rest /\
    rotate n (entropy w (draws w)) (rotated i user w).2 = (Some rest, w').
Proof.
  simpl. unfold bind at 1.
  destruct (rejection (cookieRequest t) w) as [k|] eqn:Hk.
  - rewrite (refresh_rejected _ _ _ Hk). simpl. by intros [= ].
  - destruct (refresh_accepted _ _ Hk) as (i & stored & user & Hs & _ & _ & _ & _ & ->).
    simpl. unfold bind, ret.
    destruct (rotate n _ _) as [[rest|] w2] eqn:Hrest; simpl; [|by intros [= ]].
    intros [= <- <-]. by exists i, stored, user, rest.
Qed.

Lemma rotate_length n t w toks w' :
  rotate n t w = (Some toks, w') -> length toks = n.
Proof.
  revert t w toks w'. induction n as [|n IH]; intros t w toks w' Hrot.
  - by injection Hrot as <- <-.
  - apply rotate_S in Hrot as (i & stored & user & rest & _ & _ & -> & Hrest).
    simpl. f_equal. by eapply IH.
Qed.

Lemma rotate_draws n t w toks w' :
  rotate n t w = (Some toks, w') ->
  toks = entropy w <$> seq (draws w) n.
Proof.
  revert t w toks w'. induction n as [|n IH]; intros t w toks w' Hrot.
  - by injection Hrot as <- <-.
  - apply rotate_S in Hrot as (i & stored & user & rest & _ & _ & -> & Hrest).
    simpl. f_equal. by apply IH in Hrest.
Qed.

Lemma rotate_later n t w toks w' :
  rotate n t w = (Some toks, w') -> later (refreshTokens w) (refreshTokens w').
Proof.
  revert t w toks w'. induction n as [|n IH]; intros t w toks w' Hrot.
  - injection Hrot as <- <-. apply later_refl.
  - apply rotate_S in Hrot as (i & stored & user & rest & _ & _ & -> & Hrest).
    apply IH in Hrest. eapply later_trans; [|exact Hrest].
    simpl. eapply later_trans; [apply later_revoke | apply later_app].
Qed.

(** Every token a lineage consumed is burnt at its end. *)
Lemma rotate_consumed_burnt n t w toks w' :
  rotate n t w = (Some toks, w') ->
  forall t', t' ∈ removelast (t :: toks) ->
    truthy (Some t') = true /\ burntIn (hashToken t') (refreshTokens w').
Proof.
  revert t w toks w'. induction n as [|n IH]; intros t w toks w' Hrot t' Ht'.
  - injection Hrot as <- <-. simpl in Ht'. by apply elem_of_nil in Ht'.
  - apply rotate_S in Hrot as (i & stored & user & rest & Hk & Hs & -> & Hrest).
    change (removelast (t :: entropy w (draws w) :: rest))
      with (t :: removelast (entropy w (draws w) :: rest)) in Ht'.
    apply elem_of_cons in Ht' as [->|Ht'].
    + split.
      * unfold rejection in Hk. rewrite presented_cookieRequest in Hk.
        by destruct (truthy (Some t)).
      * eapply burntIn_later; [eapply rotate_later, Hrest|].
        pose proof (rotated_burnt _ _ _ user _ Hs) as Hb.
        by rewrite presented_cookieRequest in Hb.
    + by eapply IH.
Qed.

(** No token a lineage consumes was burnt when the lineage began. *)
Lemma rotate_consumed_unburnt n t w toks w' :
  rotate n t w = (Some toks, w') ->
  forall t', t' ∈ removelast (t :: toks) ->
    ~ burntIn (hashToken t') (refreshTokens w).
Proof.
  revert t w toks w'. induction n as [|n IH]; intros t w toks w' Hrot t' Ht' Hb.
  - injection Hrot as <- <-. simpl in Ht'. by apply elem_of_nil in Ht'.
  - pose proof (rotate_consumed_burnt _ _ _ _ _ Hrot t' Ht') as [Htr _].
    apply rotate_S in Hrot as (i & stored & user & rest & Hk & Hs & -> & Hrest).
    change (removelast (t :: entropy w (draws w) :: rest))
      with (t :: removelast (entropy w (draws w) :: rest)) in Ht'.
    apply elem_of_cons in Ht' as [->|Ht'].
    + rewrite (burnt_rejected (cookieRequest t) w) in Hk; [done|..];
        by rewrite presented_cookieRequest.
    + eapply (IH _ _ _ _ Hrest t' Ht').
      eapply burntIn_later; [|exact Hb].
      simpl. eapply later_trans; [apply later_revoke | apply later_app].
Qed.

Lemma rotate_consumed_NoDup n t w toks w' :
  rotate n t w = (Some toks, w') -> NoDup (removelast (t :: toks)).
Proof.
  revert t w toks w'. induction n as [|n IH]; intros t w toks w' Hrot.
  - injection Hrot as <- <-. simpl. constructor.
  - pose proof (rotate_S _ _ _ _ _ Hrot)
      as (i & stored & user & rest & Hk & Hs & -> & Hrest).
    change (removelast (t :: entropy w (draws w) :: rest))
      with (t :: removelast (entropy w (draws w) :: rest)).
    constructor; [|by eapply IH].
    intros Hin.
    apply (rotate_consumed_unburnt _ _ _ _ _ Hrest t Hin).
    pose proof (rotated_burnt _ _ _ user _ Hs) as Hb.
    by rewrite presented_cookieRequest in Hb.
Qed.

(** *** Replay without cascade *)

(** C2 (amended). Presenting a token whose record is already revoked
    is refused with 401 and changes nothing at all: no other record of
    that user is revoked, and any later [/refresh] behaves as if the
    replay had not happened; in particular one presenting another,
    still valid token of the same user succeeds. *)
Theorem refresh_reuse_no_cascade req w i stored
    (Htoken : truthy (presented req) = true)
    (Hstored : storedFor req w = Some (i, stored))
    (Hrevoked : is_Some (revokedAt stored)) :
  refresh req w = (json 401 (Message "Refresh token invalid") Untouched, w) /\
  (forall req', refresh req' (refresh req w).2 = refresh req' w) /\
  (forall req', rejection req' w = None ->
                status (refresh req' (refresh req w).2).1 = 200%Z).
Proof.
  assert (Hk : rejection req w = Some TokenRevoked).
  { apply burnt_rejected; [done|]. by exists i, stored. }
  rewrite (refresh_rejected _ _ _ Hk). simpl. split_and!; [done..|].
  intros req' Hok. by apply refresh_status.
Qed.

(** *** When [/refresh] answers 401 *)


(** C10. When the presented token has an unrevoked, unexpired record
    whose owner no longer exists, [/refresh] answers 401 and leaves
    both collections as they were: the record is not revoked and no
    record is created. *)
Theorem refresh_owner_missing req w i stored
    (Htoken : truthy (presented req) = true)
    (Hstored : storedFor req w = Some (i, stored))
    (Hunrevoked : revokedAt stored = None)
    (Hunexpired : (now w <= expiresAt stored)%Z)
    (Hgone : forall u, u ∈ users w -> _id u <> userId stored) :
  (refresh req w).1 = json 401 (Message "User not found") Untouched /\
  users (refresh req w).2 = users w /\
  refreshTokens (refresh req w).2 = refreshTokens w /\
  refreshTokens (refresh req w).2 !! i = Some stored.
Proof.
  assert (Hk : rejection req w = Some UserMissing).
  { unfold rejection, ownerOf. rewrite Htoken, Hstored, Hunrevoked. simpl.
    rewrite (proj2 (Z.ltb_ge _ _) Hunexpired).
    destruct (list_find _ (users w)) as [[j u]|] eqn:Hu; [|done].
    apply list_find_Some in Hu as (Hj & Hid & _).
    exfalso. eapply Hgone; [by eapply list_elem_of_lookup_2 | done]. }
  rewrite (refresh_rejected _ _ _ Hk). simpl. split_and!; try done.
  unfold storedFor in Hstored. by apply list_find_Some in Hstored as (? & _).
Qed.

(** *** Login failures *)

(** C5. A login refused because no user has the e-mail and a login
    refused because the password does not match the stored hash get
    the same response: status 401, message "Invalid credentials", no
    cookie; neither changes the world. *)
Theorem login_failures_indistinguishable req1 w1 req2 w2 j user
    (Hfields1 : truthy (body_email req1) = true /\ truthy (body_password req1) = true)
    (Hfields2 : truthy (body_email req2) = true /\ truthy (body_password req2) = true)
    (Hunknown : forall u, u ∈ users w1 ->
                  email u <> toLowerCase (String_of (body_email req1)))
    (Hknown : list_find (fun u => email u = toLowerCase (String_of (body_email req2)))
                        (users w2) = Some (j, user))
    (Hmismatch : bcrypt_compare (String_of (body_password req2)) (passwordHash user)
                 = false) :
  login req1 w1 = (json 401 (Message "Invalid credentials") Untouched, w1) /\
  login req2 w2 = (json 401 (Message "Invalid credentials") Untouched, w2) /\
  (login req1 w1).1 = (login req2 w2).1.
Proof.
  destruct Hfields1 as [He1 Hp1], Hfields2 as [He2 Hp2].
  assert (H1 : login req1 w1 = (json 401 (Message "Invalid credentials") Untouched, w1)).
  { unfold login. rewrite He1, Hp1. simpl.
    unfold bind, UserModel_findOne, gets, ret.
    destruct (list_find _ (users w1)) as [[k u]|] eqn:Hu; [|done].
    apply list_find_Some in Hu as (Hk & Hem & _).
    exfalso. eapply Hunknown; [by eapply list_elem_of_lookup_2 | done]. }
  assert (H2 : login req2 w2 = (json 401 (Message "Invalid credentials") Untouched, w2)).
  { unfold login. rewrite He2, Hp2. simpl.
    unfold bind, UserModel_findOne, gets, ret.
    rewrite Hknown. simpl. by rewrite Hmismatch. }
  by rewrite H1, H2.
Qed.

(** *** Logout *)

Lemma logout_response req w :
  (logout req w).1 = json 200 OkTrue (ClearCookie refreshCookieName).
Proof.
  unfold logout, bind, ret.
  by destruct (truthy (cookies req !! refreshCookieName)).
Qed.

Lemma logout_world req w :
  (logout req w).2 =
    if truthy (presented req) then
      match unrevokedFor req w with
      | Some (i, _) =>
          with_refreshTokens
            (alter (set_revokedAt (now w)) i (refreshTokens w)) (tick 1 w)
      | None => tick 1 w
      end
    else w.
Proof.
  unfold logout, bind, ret, presented, unrevokedFor.
  destruct (truthy (cookies req !! refreshCookieName)); simpl; [|done].
  unfold RefreshTokenModel_updateOne, modify, presented; simpl.
  by destruct (list_find _ (refreshTokens w)) as [[i r]|].
Qed.

Lemma unrevokedFor_spent req w i r d :
  NoDup (tokenHash <$> refreshTokens w) ->
  unrevokedFor req w = Some (i, r) ->
  list_find (fun r => tokenHash r = hashToken (String_of (presented req)) /\
                      revokedAt r = None)
            (alter (set_revokedAt d) i (refreshTokens w)) = None.
Proof.
  intros Hnd (Hi & [Hh _] & _)%list_find_Some.
  apply list_find_None, Forall_lookup. intros k y Hk [Hhy Hry].
  destruct (decide (i = k)) as [->|Hne].
  - rewrite list_lookup_alter_eq, Hi in Hk. by injection Hk as <-.
  - rewrite list_lookup_alter_ne in Hk by done.
    apply Hne. eapply (NoDup_lookup _ _ _ _ Hnd).
    + by rewrite list_lookup_fmap, Hi.
    + rewrite list_lookup_fmap, Hk. simpl. congruence.
Qed.

(** C6. Whatever cookie is presented (none, an unknown token, a
    revoked one), [/logout] answers 200 [{ok:true}] and clears the
    cookie. When an unrevoked record has the hash of the presented
    token, it sets that record's [revokedAt] to the date read, leaving
    the record's other fields and every other record as they are, and
    the token is refused by [/refresh] from then on; otherwise it
    changes no record. When no two records share a hash, a second
    [/logout] with the same cookie gets the same answer and leaves both
    collections as the first one left them. *)
Theorem logout_idempotent req w
    (Hunique : NoDup (tokenHash <$> refreshTokens w)) :
  let w1 := (logout req w).2 in
  let w2 := (logout req w1).2 in
  (logout req w).1 = json 200 OkTrue (ClearCookie refreshCookieName) /\
  (logout req w1).1 = json 200 OkTrue (ClearCookie refreshCookieName) /\
  users w1 = users w /\
  (forall i r,
     truthy (presented req) = true ->
     refreshTokens w !! i = Some r ->
     tokenHash r = hashToken (String_of (presented req)) ->
     revokedAt r = None ->
     refreshTokens w1
       = <[i := {| userId := userId r; tokenHash := tokenHash r;
                   expiresAt := expiresAt r; revokedAt := Some (now w) |}]>
           (refreshTokens w) /\
     rejection req w1 = Some TokenRevoked) /\
  ((truthy (presented req) = false \/
    forall r, r ∈ refreshTokens w ->
              tokenHash r = hashToken (String_of (presented req)) ->
              is_Some (revokedAt r)) ->
   refreshTokens w1 = refreshTokens w) /\
  db w2 = db w1.
Proof.
  intros w1 w2. subst w2 w1. rewrite !logout_response.
  split; [done|]. split; [done|].
  rewrite (logout_world req (logout req w).2), (logout_world req w).
  destruct (truthy (presented req)) eqn:Ht.
  2:{ by split_and!. }
  destruct (unrevokedFor req w) as [[i r]|] eqn:Hu.
  - split; [done|]. split_and!.
    + intros i' r' _ Hi' Hh' Hr'.
      pose proof Hu as (Hi & [Hh Hr] & _)%list_find_Some.
      assert (i' = i) as ->.
      { eapply (NoDup_lookup _ _ _ _ Hunique).
        - by rewrite list_lookup_fmap, Hi'.
        - rewrite list_lookup_fmap, Hi. simpl. congruence. }
      assert (r' = r) as -> by congruence.
      split.
      * simpl. apply list_eq. intros k. destruct (decide (i = k)) as [->|Hne].
        -- rewrite list_lookup_alter_eq, Hi. simpl.
           symmetry. apply list_lookup_insert_eq. by eapply lookup_lt_Some.
        -- by rewrite list_lookup_alter_ne, list_lookup_insert_ne.
      * apply burnt_rejected; [done|]. simpl.
        exists i, (set_revokedAt (now w) r). split; [|by eexists].
        rewrite (list_find_alter_keep _ (set_revokedAt _) i _ i r); [|done|].
        -- by rewrite decide_True.
        -- apply list_find_Some. split_and!; [done | done |].
           intros j y Hj Hlt Hy. assert (j = i) as -> by
             (eapply (NoDup_lookup _ _ _ _ Hunique);
              [by rewrite list_lookup_fmap, Hj
              |rewrite list_lookup_fmap, Hi; simpl; congruence]).
           lia.
    + intros [?|Hall]; [done|]. exfalso.
      pose proof Hu as (Hi & [Hh Hr] & _)%list_find_Some.
      destruct (Hall r) as [d Hd]; [by eapply list_elem_of_lookup_2 | done |].
      congruence.
    + unfold unrevokedFor at 1. simpl.
      by rewrite (unrevokedFor_spent req w i r _ Hunique Hu).
  - split; [done|]. split_and!.
    + intros i r _ Hi Hh Hr. exfalso.
      unfold unrevokedFor in Hu. apply list_find_None in Hu.
      rewrite Forall_lookup in Hu. by apply (Hu i r Hi).
    + done.
    + unfold unrevokedFor at 1. simpl.
      fold (unrevokedFor req w). by rewrite Hu.
Qed.

(** *** Distinct hashes are an invariant under a collision-free generator *)

Lemma hashes_revoke d (i : nat) (l : list RefreshToken) :
  tokenHash <$> alter (set_revokedAt d) i l = tokenHash <$> l.
Proof.
  apply list_eq. intros j. rewrite !list_lookup_fmap.
  destruct (decide (i = j)) as [->|Hne].
  - rewrite list_lookup_alter_eq. by destruct (l !! j).
  - by rewrite list_lookup_alter_ne.
Qed.

(** A call leaves the hashes as they are, or appends the hash of the
    next token of the generator. *)
Lemma handle_hashes c w :
  (hashes (handle c w).2 = hashes w /\ draws (handle c w).2 = draws w \/
   hashes (handle c w).2 = (hashes w ++ [hashToken (entropy w (draws w))])%list /\
   draws (handle c w).2 = S (draws w)) /\
  entropy (handle c w).2 = entropy w.
Proof.
  unfold hashes. destruct c as [req|req|req|req]; simpl.
  - unfold register.
    destruct (negb (truthy (body_email req)) || negb (truthy (body_name req))
              || negb (truthy (body_password req))); [by split; [left|]|].
    unfold bind, UserModel_findOne, gets, ret; simpl.
    destruct (list_find _ (users w)) as [[j user]|]; simpl; [by split; [left|]|].
    split; [right|done]. by rewrite fmap_app.
  - unfold login.
    destruct (negb (truthy (body_email req)) || negb (truthy (body_password req)));
      [by split; [left|]|].
    unfold bind, UserModel_findOne, gets, ret; simpl.
    destruct (list_find _ (users w)) as [[j user]|]; simpl; [|by split; [left|]].
    destruct (bcrypt_compare _ _); simpl; [|by split; [left|]].
    split; [right|done]. by rewrite fmap_app.
  - destruct (rejection req w) as [k|] eqn:Hk.
    + rewrite (refresh_rejected _ _ _ Hk). destruct k; (split; [by left | done]).
    + destruct (refresh_accepted _ _ Hk) as (i & stored & user & _ & _ & _ & _ & _ & ->).
      simpl. split; [right|done]. by rewrite fmap_app, hashes_revoke.
  - rewrite logout_world. destruct (truthy (presented req)); [|by split; [left|]].
    destruct (unrevokedFor req w) as [[i r]|]; simpl; [|by split; [left|]].
    split; [left|done]. by rewrite hashes_revoke.
Qed.

Lemma handle_collision_free c w :
  NoDup (hashes w) -> collision_free w ->
  NoDup (hashes (handle c w).2) /\ collision_free (handle c w).2.
Proof.
  intros Hnd (Hnew & Hinj & Hne).
  destruct (handle_hashes c w) as [[[Hh Hd]|[Hh Hd]] He]; rewrite Hh.
  - split; [done|]. unfold collision_free. rewrite Hh, Hd, He. done.
  - split.
    + apply NoDup_app. split_and!; [done | | apply NoDup_singleton].
      intros h Hin ->%list_elem_of_singleton. by apply (Hnew (draws w)).
    + unfold collision_free. rewrite Hh, Hd, He. split_and!.
      * intros k Hk [Hin|Hin%list_elem_of_singleton]%elem_of_app.
        -- apply (Hnew k); [lia | done].
        -- apply Hinj in Hin; lia.
      * intros j k Hj Hk. apply Hinj; lia.
      * intros k Hk. apply Hne. lia.
Qed.

Lemma serve_collision_free cs w :
  NoDup (hashes w) -> collision_free w ->
  NoDup (hashes (serve cs w).2) /\ collision_free (serve cs w).2.
Proof.
  revert w. induction cs as [|c cs IH]; intros w Hnd Hcf; simpl; [done|].
  unfold bind, ret.
  destruct (handle_collision_free c w Hnd Hcf) as [Hnd' Hcf'].
  destruct (handle c w) as [r w1]. simpl in *.
  specialize (IH w1 Hnd' Hcf'). by destruct (serve cs w1) as [rs w2].
Qed.

(** *** A lineage goes on while the clock stays behind the expiries *)

Lemma rotated_next_accepted req i stored user w :
  storedFor req w = Some (i, stored) ->
  ownerOf stored w = Some user ->
  _id user = userId stored ->
  collision_free w ->
  (dates w (4 + dateReads w) <= expiryFrom (dates w (2 + dateReads w)))%Z ->
  rejection (cookieRequest (entropy w (draws w))) (rotated i user w).2 = None.
Proof.
  intros Hs Hown Hid (Hnew & _ & Hne) Htime.
  unfold rejection. rewrite presented_cookieRequest.
  assert (Ht : truthy (Some (entropy w (draws w))) = true).
  { apply truthy_Some. eexists. split; [done|]. by apply Hne. }
  rewrite Ht. simpl negb. cbv iota.
  unfold storedFor. rewrite presented_cookieRequest. simpl.
  rewrite list_find_app_r.
  2:{ apply list_find_alter_None; [done|].
      apply list_find_None, Forall_forall. intros r Hr Hh.
      apply (Hnew (draws w)); [lia|]. unfold hashes.
      apply list_elem_of_fmap. by exists r. }
  simpl. rewrite decide_True by done. simpl.
  unfold now. simpl.
  simpl in Htime. rewrite (proj2 (Z.ltb_ge _ _) Htime).
  unfold ownerOf in *. simpl. by rewrite Hid, Hown.
Qed.

Lemma rotated_collision_free i user w :
  collision_free w -> collision_free (rotated i user w).2.
Proof.
  intros (Hnew & Hinj & Hne). unfold collision_free, hashes. simpl.
  rewrite fmap_app, hashes_revoke. simpl. split_and!.
  - intros k Hk [Hin|Hin%list_elem_of_singleton]%elem_of_app.
    + apply (Hnew k); [lia | done].
    + apply Hinj in Hin; lia.
  - intros j k Hj Hk. apply Hinj; lia.
  - intros k Hk. apply Hne. lia.
Qed.

(** Starting from an accepted token, with a collision-free generator
    and a clock that stays behind the expiry dates, [n] refreshes in
    sequence all succeed. *)
Lemma rotate_succeeds n token w :
  (n <> 0%nat -> rejection (cookieRequest token) w = None) ->
  collision_free w ->
  unexpiring (4 * n + 1) w ->
  exists toks w', rotate n token w = (Some toks, w').
Proof.
  revert token w. induction n as [|n IH]; intros token w Hok Hcf Htime.
  - by exists [], w.
  - simpl. unfold bind at 1.
    destruct (refresh_accepted _ _ (Hok ltac:(done)))
      as (i & stored & user & Hs & _ & _ & Hown & Hid & ->).
    destruct (IH (entropy w (draws w)) (rotated i user w).2)
      as (rest & w' & Hrest).
    + intros _. apply (rotated_next_accepted (cookieRequest token) _ stored); try done.
      apply Htime; lia.
    + by apply rotated_collision_free.
    + intros a b Ha Hab Hb. simpl in *. apply Htime; lia.
    + simpl in *. unfold bind, ret. rewrite Hrest. by eexists _, _.
Qed.

(** C1. A successful [/refresh] revokes the record it consumed, appends
    a new unrevoked record for the same user, and answers 200 with an
    access token signed for that user at the current time and the new
    refresh token in the cookie. Hence, along a lineage of [n]
    refreshes each presenting the previous cookie: [n] tokens are
    issued; the [n] tokens consumed are pairwise distinct, and so are
    the [n] tokens issued when the generator never repeats; and each
    consumed token, replayed at any later time (after any further
    calls), is refused with 401 because its record is revoked, leaving
    the world as it was. Such a lineage exists: from an accepted token,
    with a collision-free generator and a clock that stays behind the
    expiry dates, [n] refreshes in sequence all succeed and issue [n]
    distinct tokens. *)
Theorem refresh_rotation_on_use :
  (forall req w,
     status (refresh req w).1 = 200%Z ->
     exists i stored user newRefresh doc,
       storedFor req w = Some (i, stored) /\
       revokedAt stored = None /\
       ownerOf stored w = Some user /\ _id user = userId stored /\
       refreshTokens (refresh req w).2
         = (<[i := set_revokedAt (dates w (S (dateReads w))) stored]> (refreshTokens w)
              ++ [doc])%list /\
       users (refresh req w).2 = users w /\
       userId doc = userId stored /\
       tokenHash doc = hashToken newRefresh /\
       revokedAt doc = None /\
       newRefresh = entropy w (draws w) /\
       (refresh req w).1
         = json 200
             (Session (signAccess (userId stored) (dates w (3 + dateReads w)))
                      (viewOf user))
             (SetCookie refreshCookieName newRefresh)) /\
  (forall n token w toks w',
     rotate n token w = (Some toks, w') ->
     length toks = n /\
     NoDup (removelast (token :: toks)) /\
     (Inj (=) (=) (entropy w) -> NoDup toks) /\
     forall t cs,
       t ∈ removelast (token :: toks) ->
       let w'' := (serve cs w').2 in
       rejection (cookieRequest t) w'' = Some TokenRevoked /\
       refresh (cookieRequest t) w''
         = (json 401 (Message "Refresh token invalid") Untouched, w'')) /\
  (forall n token w,
     rejection (cookieRequest token) w = None ->
     collision_free w ->
     unexpiring (4 * n + 1) w ->
     exists toks w',
       rotate n token w = (Some toks, w') /\ length toks = n /\ NoDup toks).
Proof.
  split_and!.
  - intros req w Hok. apply refresh_status in Hok.
    destruct (refresh_accepted _ _ Hok)
      as (i & stored & user & Hs & Hrev & _ & Hown & Hid & ->).
    exists i, stored, user, (entropy w (draws w)),
      {| userId := _id user; tokenHash := hashToken (entropy w (draws w));
         expiresAt := expiryFrom (dates w (S (S (dateReads w))));
         revokedAt := None |}.
    simpl. split_and!; try done.
    + by rewrite (alter_found _ _ _ _ _ Hs).
    + by rewrite Hid.
  - intros n token w toks w' Hrot. split_and!.
    + by eapply rotate_length.
    + by eapply rotate_consumed_NoDup.
    + intros Hinj. rewrite (rotate_draws _ _ _ _ _ Hrot).
      apply NoDup_fmap_2; [done | apply NoDup_seq].
    + intros t cs Ht w''.
      destruct (rotate_consumed_burnt _ _ _ _ _ Hrot t Ht) as [Htr Hb].
      assert (Hk : rejection (cookieRequest t) w'' = Some TokenRevoked).
      { apply burnt_rejected; rewrite presented_cookieRequest; [done|].
        eapply burntIn_later; [apply serve_later | exact Hb]. }
      split; [done|]. by rewrite (refresh_rejected _ _ _ Hk).
  - intros n token w Hok Hcf Htime.
    destruct (rotate_succeeds n token w) as (toks & w' & Hrot); [done..|].
    exists toks, w'. split_and!; [done | by eapply rotate_length |].
    rewrite (rotate_draws _ _ _ _ _ Hrot).
    destruct Hcf as (_ & Hinj & _).
    apply NoDup_fmap_2_strong; [|apply NoDup_seq].
    intros j k Hj%elem_of_seq Hk%elem_of_seq Hjk.
    apply Hinj; [lia | lia | by rewrite Hjk].
Qed.

(** *** Two calls with one token *)

(** Run without interruption, the process is the handler. *)
Lemma steps_refresh req w :
  steps 4 (Start req) w = (Done (refresh req w).1, (refresh req w).2).
Proof.
  unfold refresh. simpl. unfold bind at 1. simpl.
  destruct (truthy (cookies req !! refreshCookieName)); simpl; [|done].
  unfold bind, RefreshTokenModel_findOne, gets, ret; simpl.
  destruct (list_find _ (refreshTokens w)) as [[i stored]|]; [|done].
  destruct (revokedAt stored); [done|].
  destruct (expiresAt stored <? dates w (dateReads w))%Z; [done|].
  simpl. unfold bind, UserModel_findById, gets, ret; simpl.
  by destruct (list_find _ (users w)) as [[j user]|].
Qed.

(** *** Schedules *)

Lemma moves_app who s1 s2 :
  moves who (s1 ++ s2) = (moves who s1 + moves who s2)%nat.
Proof. unfold moves. by rewrite filter_app, length_app. Qed.

Lemma moves_cons who b s :
  moves who (b :: s) = ((if decide (b = who) then 1 else 0) + moves who s)%nat.
Proof. unfold moves. rewrite filter_cons. by destruct (decide (b = who)). Qed.

Lemma moves_elem who s : (1 <= moves who s)%nat -> who ∈ s.
Proof.
  unfold moves. intros Hpos.
  destruct (filter (fun b => b = who) s) as [|b l] eqn:Hf; [simpl in Hpos; lia|].
  assert (Hb : b ∈ filter (fun b => b = who) s) by (rewrite Hf; apply list_elem_of_here).
  by apply list_elem_of_filter in Hb as [-> ?].
Qed.

(** A schedule that lets both calls finish either gives one call its
    first three transitions before the other moves, or has a prefix in
    which both calls have moved and neither has moved three times. *)
Lemma schedule_kinds sched :
  (4 <= moves true sched)%nat -> (4 <= moves false sched)%nat ->
  (exists first rest,
     sched = (replicate 3 first ++ rest)%list /\ first ∈ rest /\ negb first ∈ rest) \/
  (exists pre rest,
     sched = (pre ++ rest)%list /\
     (1 <= moves true pre <= 2)%nat /\ (1 <= moves false pre <= 2)%nat).
Proof.
  intros Ht Hf.
  destruct sched as [|x [|y [|z rest]]].
  - unfold moves in Ht. simpl in Ht. lia.
  - destruct x; unfold moves in Ht, Hf; simpl in Ht, Hf; lia.
  - destruct x, y; unfold moves in Ht, Hf; simpl in Ht, Hf; lia.
  - rewrite !moves_cons in Ht, Hf.
    destruct x, y, z; simpl in Ht, Hf;
      first [ left; exists true, rest; split; [reflexivity|];
              split; apply moves_elem; simpl; lia
            | left; exists false, rest; split; [reflexivity|];
              split; apply moves_elem; simpl; lia
            | right; eexists [_; _; _], rest; split; [reflexivity|];
              unfold moves; simpl; lia ].
Qed.

Lemma interleave_app s1 s2 a b w :
  interleave (s1 ++ s2) a b w
  = interleave s2 (interleave s1 a b w).1.1 (interleave s1 a b w).1.2
      (interleave s1 a b w).2.
Proof.
  revert a b w. induction s1 as [|[] s1 IH]; intros a b w; simpl; [done | |].
  - unfold bind. destruct (step a w) as [a' w']. apply IH.
  - unfold bind. destruct (step b w) as [b' w']. apply IH.
Qed.

(** The two calls play symmetric parts. *)
Lemma interleave_swap sched a b w :
  interleave (negb <$> sched) a b w
  = ((interleave sched b a w).1.2, (interleave sched b a w).1.1,
     (interleave sched b a w).2).
Proof.
  revert a b w. induction sched as [|[] sched IH]; intros a b w; simpl; [done | |].
  - unfold bind. destruct (step b w) as [b' w']. apply IH.
  - unfold bind. destruct (step a w) as [a' w']. apply IH.
Qed.

Lemma interleave_Done sched ra rb w :
  interleave sched (Done ra) (Done rb) w = ((Done ra, Done rb), w).
Proof. induction sched as [|[] sched IH]; simpl; [done | exact IH | exact IH]. Qed.

Lemma interleave_left_Done sched ra b rb w :
  false ∈ sched -> step b w = (Done rb, w) ->
  interleave sched (Done ra) b w = ((Done ra, Done rb), w).
Proof.
  intros Hin Hb. induction sched as [|[] sched IH]; simpl.
  - by apply elem_of_nil in Hin.
  - apply IH. by apply elem_of_cons in Hin as [?|?].
  - unfold bind. rewrite Hb. apply interleave_Done.
Qed.

Lemma interleave_right_Done sched a ra rb w w' :
  true ∈ sched -> step a w = (Done ra, w') ->
  interleave sched a (Done rb) w = ((Done ra, Done rb), w').
Proof.
  intros Hin Ha. revert Hin. induction sched as [|[] sched IH]; intros Hin; simpl.
  - by apply elem_of_nil in Hin.
  - unfold bind. rewrite Ha. apply interleave_Done.
  - apply IH. by apply elem_of_cons in Hin as [?|?].
Qed.

(** *** The transitions of a task *)

Lemma step_Start_burnt req w :
  truthy (presented req) = true ->
  burntIn (hashToken (String_of (presented req))) (refreshTokens w) ->
  step (Start req) w
  = (Done (json 401 (Message "Refresh token invalid") Untouched), w).
Proof.
  intros Ht (i & r & Hfind & [d Hd]). unfold presented in *. simpl.
  rewrite Ht. simpl. unfold bind, RefreshTokenModel_findOne, gets, ret.
  by rewrite Hfind, Hd.
Qed.

Lemma step_Start_passes req w i stored :
  truthy (presented req) = true ->
  storedFor req w = Some (i, stored) ->
  revokedAt stored = None ->
  (dates w (dateReads w) <= expiresAt stored)%Z ->
  step (Start req) w = (AwaitUser i stored, tick 1 w).
Proof.
  intros Ht Hs Hrev Hexp. unfold presented, storedFor in *. simpl.
  rewrite Ht. simpl. unfold bind, RefreshTokenModel_findOne, gets, ret.
  unfold presented in Hs. rewrite Hs, Hrev. simpl.
  by rewrite (proj2 (Z.ltb_ge _ _) Hexp).
Qed.

Lemma step_AwaitUser_passes i stored user w :
  ownerOf stored w = Some user ->
  step (AwaitUser i stored) w
  = (AwaitSave i user (dates w (dateReads w)), tick 1 w).
Proof.
  unfold ownerOf. intros Hown. simpl.
  unfold bind, UserModel_findById, gets, ret. by rewrite Hown.
Qed.

(** A task past the guards moves on, whatever the ledger holds, and
    ends with 200. *)
Lemma step_admitted t w :
  admitted w t ->
  admitted (step t w).2 (step t w).1 /\
  phase (step t w).1 = (S (phase t) `min` 4)%nat /\
  users (step t w).2 = users w.
Proof.
  destruct t as [req|i stored|i user d'|user newRefresh doc|res]; simpl.
  - done.
  - intros [user Hown]. unfold ownerOf in Hown.
    unfold bind, UserModel_findById, gets, ret. by rewrite Hown.
  - done.
  - done.
  - done.
Qed.

Lemma admitted_users t w w' : users w' = users w -> admitted w t -> admitted w' t.
Proof.
  intros Hu. destruct t as [req|i stored|i user d'|user newRefresh doc|res]; try done.
  simpl. unfold ownerOf. by rewrite Hu.
Qed.

Lemma interleave_admitted sched : forall a b w,
  admitted w a -> admitted w b ->
  let out := interleave sched a b w in
  admitted out.2 out.1.1 /\ admitted out.2 out.1.2 /\
  phase out.1.1 = ((phase a + moves true sched) `min` 4)%nat /\
  phase out.1.2 = ((phase b + moves false sched) `min` 4)%nat.
Proof.
  induction sched as [|x sched IH]; intros a b w Ha Hb.
  - simpl. unfold moves. simpl.
    assert (phase a <= 4)%nat by (by destruct a; simpl; lia).
    assert (phase b <= 4)%nat by (by destruct b; simpl; lia).
    split_and!; [done | done | lia | lia].
  - rewrite !moves_cons. destruct x; simpl; unfold bind.
    + destruct (step_admitted a w Ha) as (Ha' & Hp & Hu).
      destruct (step a w) as [a' w']. simpl in *.
      destruct (IH a' b w' Ha' (admitted_users _ _ _ Hu Hb)) as (H1 & H2 & H3 & H4).
      split_and!; [done | done | lia | lia].
    + destruct (step_admitted b w Hb) as (Hb' & Hp & Hu).
      destruct (step b w) as [b' w']. simpl in *.
      destruct (IH a b' w' (admitted_users _ _ _ Hu Ha) Hb') as (H1 & H2 & H3 & H4).
      split_and!; [done | done | lia | lia].
Qed.

Lemma admitted_answered t w :
  admitted w t -> phase t = 4%nat ->
  exists res, t = Done res /\ status res = 200%Z /\ setsCookie res = true.
Proof.
  destruct t as [req|i stored|i user d'|user newRefresh doc|res]; try done.
  intros [? ?] _. by exists res.
Qed.

(** As long as neither call has saved, each passes the guards. *)
Lemma interleave_early req w i stored user :
  truthy (presented req) = true ->
  storedFor req w = Some (i, stored) ->
  revokedAt stored = None ->
  (forall k, (k <= 2)%nat -> (dates w (dateReads w + k) <= expiresAt stored)%Z) ->
  ownerOf stored w = Some user ->
  forall pre pa pb a b w',
    early req i stored user pa a -> early req i stored user pb b ->
    refreshTokens w' = refreshTokens w -> users w' = users w ->
    dates w' = dates w -> dateReads w' = (dateReads w + (pa + pb))%nat ->
    (pa + moves true pre <= 2)%nat -> (pb + moves false pre <= 2)%nat ->
    let out := interleave pre a b w' in
    early req i stored user (pa + moves true pre) out.1.1 /\
    early req i stored user (pb + moves false pre) out.1.2 /\
    users out.2 = users w.
Proof.
  intros Ht Hs Hrev Hfresh Hown.
  assert (Hstep : forall p q t w',
            early req i stored user p t -> (p <= 1)%nat -> (q <= 2)%nat ->
            refreshTokens w' = refreshTokens w -> users w' = users w ->
            dates w' = dates w -> dateReads w' = (dateReads w + (p + q))%nat ->
            early req i stored user (S p) (step t w').1 /\
            (step t w').2 = tick 1 w').
  { intros p q t w' Hp Hle Hq Hl Hu Hd Hr.
    destruct p as [|[|p]]; simpl in Hp; [| |lia].
    - subst t. rewrite (step_Start_passes req w' i stored); [done | done | | done |].
      + unfold storedFor. by rewrite Hl.
      + rewrite Hd, Hr. apply Hfresh. lia.
    - subst t. rewrite (step_AwaitUser_passes i stored user w').
      + split; [by eexists | done].
      + unfold ownerOf in *. by rewrite Hu. }
  induction pre as [|x pre IH]; intros pa pb a b w' Ha Hb Hl Hu Hd Hr Hpa Hpb.
  - simpl. unfold moves. simpl. by rewrite !Nat.add_0_r.
  - rewrite !moves_cons in *. destruct x; simpl in *; unfold bind.
    + destruct (Hstep pa pb a w') as [Ha' Hw']; [done | lia | lia | done..|].
      destruct (step a w') as [a' w'']. simpl in *. subst w''.
      destruct (IH (S pa) pb a' b (tick 1 w')) as (H1 & H2 & H3);
        [done | done | done | done | done | simpl; lia | lia | lia |].
      replace (pa + S (moves true pre))%nat with (S pa + moves true pre)%nat by lia.
      done.
    + destruct (Hstep pb pa b w') as [Hb' Hw']; [done | lia | lia | done | done | done | lia |].
      destruct (step b w') as [b' w'']. simpl in *. subst w''.
      destruct (IH pa (S pb) a b' (tick 1 w')) as (H1 & H2 & H3);
        [done | done | done | done | done | simpl; lia | lia | lia |].
      replace (pb + S (moves false pre))%nat with (S pb + moves false pre)%nat by lia.
      done.
Qed.

Lemma early_admitted req i stored user p t w w' :
  ownerOf stored w = Some user -> users w' = users w ->
  (1 <= p)%nat -> early req i stored user p t ->
  admitted w' t /\ phase t = p.
Proof.
  intros Hown Hu Hp Ht. destruct p as [|[|[|p]]]; simpl in Ht; [lia | | | done].
  - subst t. split; [|done]. simpl. unfold ownerOf in *. rewrite Hu, Hown. by eexists.
  - by destruct Ht as [d' ->].
Qed.

(** One call saves before the other looks the record up. *)
Lemma saved_first req w rest :
  rejection req w = None -> true ∈ rest -> false ∈ rest ->
  interleave (replicate 3 true ++ rest) (Start req) (Start req) w
  = ((Done (refresh req w).1,
      Done (json 401 (Message "Refresh token invalid") Untouched)),
     (refresh req w).2).
Proof.
  intros Hok Htrue Hfalse.
  destruct (refresh_accepted _ _ Hok)
    as (i & stored & user & Hs & Hrev & Hexp & Hown & Hid & Hrot).
  assert (Ht : truthy (presented req) = true).
  { unfold rejection in Hok. by destruct (truthy (presented req)). }
  rewrite interleave_app. simpl replicate. cbn [interleave]. unfold bind.
  rewrite (step_Start_passes req w i stored Ht Hs Hrev Hexp).
  rewrite (step_AwaitUser_passes i stored user (tick 1 w)) by exact Hown.
  set (saved := step (AwaitSave i user (dates (tick 1 w) (dateReads (tick 1 w))))
                     (tick 1 (tick 1 w))).
  assert (Hburnt3 : burntIn (hashToken (String_of (presented req)))
                            (refreshTokens saved.2)).
  { subst saved. simpl.
    exists i, (set_revokedAt (dates w (S (dateReads w))) stored). split; [|by eexists].
    rewrite (list_find_alter_keep _ (set_revokedAt _) i _ i stored); [|done|exact Hs].
    by rewrite decide_True. }
  assert (Hburnt4 : burntIn (hashToken (String_of (presented req)))
                            (refreshTokens (refresh req w).2)).
  { rewrite Hrot. by eapply rotated_burnt. }
  assert (Hanswer : (step saved.1 saved.2).1 = Done (refresh req w).1)
    by (by rewrite Hrot).
  assert (Hworld : (step saved.1 saved.2).2 = (refresh req w).2)
    by (by rewrite Hrot).
  clearbody saved. destruct saved as [t3 w3]. cbn [fst snd] in *.
  destruct (step t3 w3) as [t4 w4] eqn:Hstep4. simpl in Hanswer, Hworld. subst t4 w4.
  destruct rest as [|[] rest]; [by apply elem_of_nil in Htrue | |];
    cbn [interleave]; unfold bind, ret; cbn [fst snd].
  - rewrite Hstep4. apply interleave_left_Done.
    + by apply elem_of_cons in Hfalse as [?|?].
    + by apply step_Start_burnt.
  - rewrite (step_Start_burnt req w3 Ht Hburnt3).
    apply interleave_right_Done; [|done].
    by apply elem_of_cons in Htrue as [?|?].
Qed.

(** C3 (amended). Two [/refresh] calls present the same still valid
    token. When one call saves the revocation before the other looks the
    record up (in particular when the calls do not overlap at all),
    exactly one succeeds: the call that saved answers 200 as if it were
    alone, and the other is refused with 401 "Refresh token invalid".
    The revocation is a plain save after a separate read: when both
    calls look the record up before either saves, and the record is not
    expired at those lookups, both answer 200 and set a cookie. Every
    schedule that lets both calls finish is of one of the two kinds. *)
Theorem refresh_exactly_one_iff_saved_first req w
    (Hvalid : rejection req w = None) :
  let r1 := (refresh req w).1 in
  let r2 := json 401 (Message "Refresh token invalid") Untouched in
  status r1 = 200%Z /\
  (forall (first : bool) rest,
     first ∈ rest -> negb first ∈ rest ->
     interleave (replicate 3 first ++ rest) (Start req) (Start req) w
     = (if first then (Done r1, Done r2) else (Done r2, Done r1),
        (refresh req w).2)) /\
  (forall i stored pre rest,
     storedFor req w = Some (i, stored) ->
     (forall k, (k <= 2)%nat -> (dates w (dateReads w + k) <= expiresAt stored)%Z) ->
     (1 <= moves true pre <= 2)%nat -> (1 <= moves false pre <= 2)%nat ->
     (4 <= moves true (pre ++ rest))%nat -> (4 <= moves false (pre ++ rest))%nat ->
     exists ra rb w',
       interleave (pre ++ rest) (Start req) (Start req) w = ((Done ra, Done rb), w') /\
       status ra = 200%Z /\ setsCookie ra = true /\
       status rb = 200%Z /\ setsCookie rb = true) /\
  (forall sched,
     (4 <= moves true sched)%nat -> (4 <= moves false sched)%nat ->
     (exists first rest,
        sched = (replicate 3 first ++ rest)%list /\
        first ∈ rest /\ negb first ∈ rest) \/
     (exists pre rest,
        sched = (pre ++ rest)%list /\
        (1 <= moves true pre <= 2)%nat /\ (1 <= moves false pre <= 2)%nat)).
Proof.
  intros r1 r2. subst r1 r2.
  assert (Ht : truthy (presented req) = true).
  { unfold rejection in Hvalid. by destruct (truthy (presented req)). }
  split_and!.
  - by apply refresh_status.
  - intros first rest Hfirst Hother. destruct first; simpl in Hother.
    + by apply saved_first.
    + assert (Hsched : (replicate 3 false ++ rest)%list
                       = negb <$> (replicate 3 true ++ (negb <$> rest))%list).
      { rewrite fmap_app, <- list_fmap_compose. simpl. do 3 f_equal.
        rewrite <- (list_fmap_id rest) at 1. apply list_fmap_ext.
        intros _ b _. by destruct b. }
      rewrite Hsched, interleave_swap, saved_first; [done | done | |].
      * apply list_elem_of_fmap. by exists false.
      * apply list_elem_of_fmap. by exists true.
  - intros i stored pre rest Hs Hfresh Hpt Hpf Hmt Hmf.
    destruct (refresh_accepted _ _ Hvalid)
      as (i' & stored' & user & Hs' & Hrev & _ & Hown & _ & _).
    rewrite Hs in Hs'. injection Hs' as <- <-.
    rewrite moves_app in Hmt, Hmf. rewrite interleave_app.
    destruct (interleave_early req w i stored user Ht Hs Hrev Hfresh Hown
                pre 0 0 (Start req) (Start req) w)
      as (Ha & Hb & Hu); [done | done | done | done | done | lia | lia | lia |].
    destruct (interleave pre (Start req) (Start req) w) as [[a b] w1].
    cbn [fst snd] in *.
    destruct (early_admitted req i stored user (0 + moves true pre) a w w1 Hown Hu)
      as [Haa Hpa]; [lia | done |].
    destruct (early_admitted req i stored user (0 + moves false pre) b w w1 Hown Hu)
      as [Hab Hpb]; [lia | done |].
    destruct (interleave_admitted rest a b w1 Haa Hab) as (Ha' & Hb' & Hp & Hq).
    destruct (interleave rest a b w1) as [[a' b'] w2]. cbn [fst snd] in *.
    destruct (admitted_answered a' w2 Ha') as (ra & -> & Hra & Hca); [lia|].
    destruct (admitted_answered b' w2 Hb') as (rb & -> & Hrb & Hcb); [lia|].
    by exists ra, rb, w2.
  - apply schedule_kinds.
Qed.

End AuthFacts.

(** ** The realtime gateway *)

Section GatewayFacts.

Import Gateway.
Context `{Jwt}.

Lemma workspaceRoom_inj a b : workspaceRoom a = workspaceRoom b -> a = b.
Proof. unfold workspaceRoom. apply (inj (String.app "workspace:")). Qed.

(** *** Handshake *)

Lemma authMiddleware_Proceed time token uid :
  authMiddleware time token = Proceed uid <->
  exists s, token = Str s /\ s <> EmptyString /\ jwt_verify s time = Some (Some uid) /\ uid <> EmptyString.
Proof.
  unfold authMiddleware. destruct token as [|s|].
  - split; [done | by intros (? & ? & _)].
  - destruct (truthy (Some s)) eqn:Hs; simpl.
    + apply truthy_Some in Hs as (s' & [= <-] & Hne).
      destruct (jwt_verify s time) as [sub|] eqn:Hv.
      * destruct (truthy sub) eqn:Hsub; simpl.
        -- apply truthy_Some in Hsub as (u & -> & Hu). simpl. split.
           ++ intros [= <-]. by exists s.
           ++ intros (s' & [= <-] & _ & Hv' & _). congruence.
        -- split; [done|]. intros (s' & [= <-] & _ & Hv' & Hu).
           rewrite Hv in Hv'. injection Hv' as ->.
           apply truthy_false in Hsub as [?|[= ?]]; done.
      * split; [done|]. intros (s' & [= <-] & _ & Hv' & _). congruence.
    + apply truthy_false in Hs as [?|[= ->]]; [done|].
      split; [done|]. by intros (s' & [= <-] & ? & _).
  - split; [done | by intros (? & ? & _)].
Qed.

Lemma authMiddleware_Fail time token e :
  authMiddleware time token = Fail e -> e = "Unauthorized".
Proof.
  unfold authMiddleware. destruct token as [|s|]; try by intros [= <-].
  destruct (truthy (Some s)); simpl; [|by intros [= <-]].
  destruct (jwt_verify s time) as [sub|]; [|by intros [= <-]].
  destruct (truthy sub); simpl; [done | by intros [= <-]].
Qed.

(** C9. A connection attempt whose token is absent, not a string,
    empty, or not accepted by [jwt.verify] (unsigned, invalid, expired),
    or whose payload has no subject, is refused with "Unauthorized" and
    leaves the gateway as it was: no socket exists for it, so no
    [join_workspace] of its own can run. An attempt passes exactly when
    the token verifies with a non-empty subject, and the socket then
    created carries that subject as its user id and is in no room. *)
Theorem handshake_gate w srv time token (Hio : io w = Some srv) :
  ((token = Absent \/ token = NotAString \/ token = Str EmptyString \/
    (exists s, token = Str s /\
       (jwt_verify s time = None \/ jwt_verify s time = Some None \/
        jwt_verify s time = Some (Some EmptyString)))) ->
   act (Connect time token) w = (Refused "Unauthorized", w)) /\
  (forall e, authMiddleware time token = Fail e ->
     act (Connect time token) w = (Refused "Unauthorized", w) /\
     forall sid wid ack,
       sockets srv !! sid = None ->
       act (JoinWorkspace sid wid ack) (act (Connect time token) w).2
       = (Silent, w)) /\
  (forall uid,
     authMiddleware time token = Proceed uid <->
     exists s, token = Str s /\ s <> EmptyString /\
               jwt_verify s time = Some (Some uid) /\ uid <> EmptyString) /\
  (forall uid, authMiddleware time token = Proceed uid ->
     exists w' srv',
       act (Connect time token) w = (Connected (nextId srv), w') /\
       io w' = Some srv' /\
       sockets srv' !! nextId srv = Some {| data_userId := uid; rooms := ∅ |} /\
       memberships w' = memberships w).
Proof.
  split_and!.
  - intros Hbad.
    assert (Hf : exists e, authMiddleware time token = Fail e).
    { destruct (authMiddleware time token) as [uid|e] eqn:Hm; [|by eexists].
      apply authMiddleware_Proceed in Hm as (s & -> & Hs & Hv & Hu).
      destruct Hbad as [?|[?|[[= ?]|(s' & [= <-] & [?|[?|?]])]]]; congruence. }
    destruct Hf as [e Hf]. simpl. rewrite Hio, Hf.
    by rewrite (authMiddleware_Fail _ _ _ Hf).
  - intros e Hf.
    assert (Hc : act (Connect time token) w = (Refused "Unauthorized", w)).
    { simpl. rewrite Hio, Hf. by rewrite (authMiddleware_Fail _ _ _ Hf). }
    split; [done|]. intros sid wid ack Hsid. rewrite Hc. simpl.
    by rewrite Hio, Hsid.
  - intros uid. apply authMiddleware_Proceed.
  - intros uid Hp.
    eexists _, _. simpl. rewrite Hio, Hp. split_and!; try done.
    simpl. apply lookup_insert_eq.
Qed.

(** *** Joining a workspace *)

Lemma findOne_None wid uid ms :
  MembershipModel_findOne wid uid ms = None <->
  forall m, m ∈ ms -> ~ (workspaceId m = wid /\ userId m = uid).
Proof.
  unfold MembershipModel_findOne. rewrite fmap_None, list_find_None, Forall_forall.
  done.
Qed.

(** C7 (amended). For a connected socket, [join_workspace] passes a
    failure payload [{ok:false}] to the acknowledgement callback, and
    leaves the socket connected and its rooms unchanged, exactly when
    the workspace id is absent or empty (message "Workspace required")
    or no membership exists for the workspace id and the socket's user
    (message "Forbidden"). Otherwise it adds the socket to the room of
    that workspace and acknowledges [{ok:true}]. *)
Theorem join_workspace_ack w srv sid s wid
    (Hio : io w = Some srv) (Hsid : sockets srv !! sid = Some s) :
  let p := (join_workspace (memberships w) s wid).1 in
  let s' := (join_workspace (memberships w) s wid).2 in
  let absent := wid = None \/ wid = Some EmptyString in
  let stranger := forall m, m ∈ memberships w ->
                    ~ (workspaceId m = String_of wid /\ userId m = data_userId s) in
  (exists srv',
     act (JoinWorkspace sid wid true) w = (Ack p, with_io srv' w) /\
     sockets srv' = <[sid := s']> (sockets srv) /\ nextId srv' = nextId srv) /\
  (ok p = false <-> absent \/ stranger) /\
  (absent -> p = {| ok := false; message := Some "Workspace required" |} /\ s' = s) /\
  (~ absent -> stranger ->
     p = {| ok := false; message := Some "Forbidden" |} /\ s' = s) /\
  (ok p = true ->
     p = {| ok := true; message := None |} /\
     data_userId s' = data_userId s /\
     rooms s' = {[ workspaceRoom (String_of wid) ]} ∪ rooms s).
Proof.
  intros p s' absent stranger. subst p s' absent stranger.
  split.
  { simpl. rewrite Hio, Hsid.
    destruct (join_workspace (memberships w) s wid) as [p s'].
    by eexists {| sockets := _; nextId := _ |}. }
  unfold join_workspace.
  destruct (truthy wid) eqn:Hw; simpl.
  - assert (Hpres : ~ (wid = None \/ wid = Some EmptyString)).
    { intros Hp%truthy_false. congruence. }
    destruct (MembershipModel_findOne _ _ _) as [m|] eqn:Hm; simpl.
    + assert (Hmem : ~ forall m, m ∈ memberships w ->
                ~ (workspaceId m = String_of wid /\ userId m = data_userId s)).
      { intros Hno%findOne_None. congruence. }
      split_and!; try done. split; [done | by intros [?|?]].
    + pose proof (proj1 (findOne_None _ _ _) Hm) as Hno.
      split_and!; try done. split; [by right | done].
  - apply truthy_false in Hw. split_and!; try done. split; [by left | done].
Qed.

(** *** Publishing *)

Lemma to_emit_elem room ev pl srv d :
  d ∈ to_emit room ev pl srv <->
  exists s, sockets srv !! to d = Some s /\ room ∈ rooms s /\
            event d = ev /\ payload d = pl.
Proof.
  unfold to_emit. rewrite list_elem_of_fmap. split.
  - intros ([sid s] & -> & Hin). apply list_elem_of_filter in Hin as [Hroom Hin].
    apply elem_of_map_to_list in Hin. simpl in *. eauto.
  - intros (s & Hs & Hroom & <- & <-). exists (to d, s). split; [by destruct d|].
    apply list_elem_of_filter. split; [done|]. by apply elem_of_map_to_list.
Qed.

Lemma emit_elem w wid ev pl d :
  d ∈ emitWorkspaceEvent w wid ev pl <->
  joined w (to d) wid /\ event d = ev /\ payload d = pl.
Proof.
  unfold emitWorkspaceEvent, joined. destruct (io w) as [srv|].
  - rewrite to_emit_elem. split.
    + intros (s & Hs & Hroom & He & Hp). split; [|done]. by exists srv, s.
    + intros [(srv' & s & [= <-] & Hs & Hroom) [He Hp]]. by exists s.
  - split; [by intros ?%elem_of_nil|]. by intros [(srv & s & ? & _) _].
Qed.

Lemma run_app tr1 tr2 w :
  run (tr1 ++ tr2) w
  = let (os1, w1) := run tr1 w in
    let (os2, w2) := run tr2 w1 in
    ((os1 ++ os2)%list, w2).
Proof.
  revert w. induction tr1 as [|a tr1 IH]; intros w; simpl.
  - unfold ret. by destruct (run tr2 w).
  - unfold bind, ret. destruct (act a w) as [o w'].
    rewrite IH. destruct (run tr1 w') as [os1 w1].
    by destruct (run tr2 w1).
Qed.

Lemma run_lookup tr k a w :
  tr !! k = Some a ->
  (run tr w).1 !! k = Some (act a (before tr k w)).1.
Proof.
  unfold before. revert k w. induction tr as [|b tr IH]; intros k w Hk; [done|].
  simpl. unfold bind, ret. destruct k as [|k]; simpl in *.
  - injection Hk as ->. destruct (act a w) as [o w'].
    by destruct (run tr w').
  - specialize (IH k (act b w).2 Hk).
    unfold bind, ret. destruct (act b w) as [o w']. simpl in *.
    destruct (run tr w') as [os w'']. simpl in *. rewrite IH.
    by destruct (run (take k tr) w').
Qed.

(** A step puts a connection in a room only through an authorized
    [join_workspace] for that very workspace. *)
Lemma act_joined_inv a w sid wid :
  joined (act a w).2 sid wid ->
  joined w sid wid \/
  exists ack, a = JoinWorkspace sid (Some wid) ack /\ authorized w sid wid.
Proof.
  intros (srv' & s' & Hio' & Hs' & Hroom).
  destruct a as [|time token|sid' wid' ack|sid'|wid' ev pl|ms]; simpl in *.
  - injection Hio' as <-. simpl in Hs'. by rewrite lookup_empty in Hs'.
  - destruct (io w) as [srv|] eqn:Hio; [|simpl in *; congruence].
    destruct (authMiddleware time token) as [uid|e]; simpl in *.
    + injection Hio' as <-. simpl in Hs'.
      destruct (decide (nextId srv = sid)) as [<-|Hne].
      * rewrite lookup_insert_eq in Hs'. injection Hs' as <-.
        simpl in Hroom. by apply elem_of_empty in Hroom.
      * rewrite lookup_insert_ne in Hs' by done. left. by exists srv, s'.
    + left. exists srv', s'. split; [congruence | done].
  - destruct (io w) as [srv|] eqn:Hio; [|simpl in *; congruence].
    destruct (sockets srv !! sid') as [s|] eqn:Hsid'.
    2:{ left. exists srv', s'. simpl in *. split; [congruence | done]. }
    unfold join_workspace in *.
    destruct (truthy wid') eqn:Hw; simpl in *.
    2:{ injection Hio' as <-. simpl in Hs'. left. exists srv, s'.
        split_and!; try done.
        destruct (decide (sid' = sid)) as [->|Hne].
        - rewrite lookup_insert_eq in Hs'. congruence.
        - by rewrite lookup_insert_ne in Hs'. }
    destruct (MembershipModel_findOne _ _ _) as [m|] eqn:Hm; simpl in *.
    2:{ injection Hio' as <-. simpl in Hs'. left. exists srv, s'.
        split_and!; try done.
        destruct (decide (sid' = sid)) as [->|Hne].
        - rewrite lookup_insert_eq in Hs'. congruence.
        - by rewrite lookup_insert_ne in Hs'. }
    injection Hio' as <-. simpl in Hs'.
    destruct (decide (sid' = sid)) as [->|Hne].
    + rewrite lookup_insert_eq in Hs'. injection Hs' as <-. simpl in Hroom.
      apply elem_of_union in Hroom as [Hnew%elem_of_singleton|Hold].
      * right. apply workspaceRoom_inj in Hnew.
        apply truthy_Some in Hw as (x & -> & Hx). simpl in *. subst x.
        exists ack. split; [done|]. by exists srv, s.
      * left. by exists srv, s.
    + rewrite lookup_insert_ne in Hs' by done. left. by exists srv, s'.
  - destruct (io w) as [srv|] eqn:Hio; [|simpl in *; congruence].
    simpl in *. injection Hio' as <-. simpl in Hs'.
    apply lookup_delete_Some in Hs' as [_ Hs']. left. by exists srv, s'.
  - left. by exists srv', s'.
  - left. by exists srv', s'.
Qed.

Lemma fresh_ids_act a w : fresh_ids w -> fresh_ids (act a w).2.
Proof.
  intros Hw srv' sid Hio' Hs'.
  destruct a as [|time token|sid' wid' ack|sid'|wid' ev pl|ms]; simpl in *.
  - injection Hio' as <-. simpl in Hs'. rewrite lookup_empty in Hs'.
    by destruct Hs'.
  - destruct (io w) as [srv|] eqn:Hio; [|simpl in *; congruence].
    destruct (authMiddleware time token) as [uid|e]; simpl in *.
    + injection Hio' as <-. simpl in *.
      apply lookup_insert_is_Some in Hs' as [<-|[_ Hs']]; [lia|].
      specialize (Hw srv sid Hio Hs'). lia.
    + apply Hw; [congruence | done].
  - destruct (io w) as [srv|] eqn:Hio; [|simpl in *; congruence].
    destruct (sockets srv !! sid') as [s|] eqn:Hsid'.
    2:{ simpl in *. apply Hw; [congruence | done]. }
    destruct (join_workspace (memberships w) s wid') as [p s'].
    simpl in *. injection Hio' as <-. simpl in *.
    apply lookup_insert_is_Some in Hs' as [<-|[_ Hs']].
    + apply (Hw srv sid' Hio). by eexists.
    + by apply (Hw srv sid Hio).
  - destruct (io w) as [srv|] eqn:Hio; [|simpl in *; congruence].
    simpl in *. injection Hio' as <-. simpl in *.
    apply lookup_delete_is_Some in Hs' as [_ Hs'].
    by apply (Hw srv sid Hio).
  - by apply Hw.
  - by apply Hw.
Qed.

Lemma fresh_ids_run tr w : fresh_ids w -> fresh_ids (run tr w).2.
Proof.
  revert w. induction tr as [|a tr IH]; intros w Hw; [done|].
  simpl. unfold bind, ret.
  pose proof (fresh_ids_act a w Hw) as Ha.
  destruct (act a w) as [o w']. simpl in Ha.
  specialize (IH w' Ha). destruct (run tr w') as [os w'']. done.
Qed.

Lemma fresh_ids_boot ms : fresh_ids (boot ms).
Proof. intros srv sid Hio. done. Qed.

(** An authorized [join_workspace] puts the connection in the room. *)
Lemma act_join_joined w sid wid ack :
  authorized w sid wid -> joined (act (JoinWorkspace sid (Some wid) ack) w).2 sid wid.
Proof.
  intros (srv & s & Hio & Hs & Hne & [m Hm]).
  simpl. rewrite Hio, Hs. unfold join_workspace.
  assert (Ht : truthy (Some wid) = true).
  { apply truthy_Some. by exists wid. }
  rewrite Ht. simpl. rewrite Hm. simpl.
  eexists _, _. split_and!; [done | apply lookup_insert_eq |].
  simpl. apply elem_of_union_l. by apply elem_of_singleton.
Qed.

(** A joined connection stays joined until it disconnects or the
    server is replaced. *)
Lemma act_joined_stable a w sid wid :
  fresh_ids w -> a <> Disconnect sid -> a <> InitSocket ->
  joined w sid wid -> joined (act a w).2 sid wid.
Proof.
  intros Hw Hd Hi (srv & s & Hio & Hs & Hroom).
  destruct a as [|time token|sid' wid' ack|sid'|wid' ev pl|ms]; simpl.
  - done.
  - rewrite Hio. destruct (authMiddleware time token) as [uid|e]; simpl.
    + eexists _, s. split_and!; [done| |done]. simpl.
      rewrite lookup_insert_ne; [done|].
      assert (sid < nextId srv)%nat by (apply Hw; [done | by eexists]). lia.
    + by exists srv, s.
  - rewrite Hio. destruct (sockets srv !! sid') as [s0|] eqn:Hs0.
    2:{ by exists srv, s. }
    destruct (decide (sid' = sid)) as [->|Hne].
    + rewrite Hs in Hs0. injection Hs0 as <-.
      unfold join_workspace. destruct (truthy wid'); simpl.
      2:{ eexists _, s. split_and!; [done | apply lookup_insert_eq | done]. }
      destruct (MembershipModel_findOne _ _ _); simpl.
      * eexists _, _. split_and!; [done | apply lookup_insert_eq |].
        simpl. by apply elem_of_union_r.
      * eexists _, s. split_and!; [done | apply lookup_insert_eq | done].
    + destruct (join_workspace (memberships w) s0 wid') as [p s']. simpl.
      eexists _, s. split_and!; [done | | done]. simpl.
      by rewrite lookup_insert_ne.
  - rewrite Hio. simpl. eexists _, s. split_and!; [done | | done]. simpl.
    rewrite lookup_delete_ne; [done|]. congruence.
  - by exists srv, s.
  - by exists srv, s.
Qed.

Lemma before_S tr i a w :
  tr !! i = Some a -> before tr (S i) w = (act a (before tr i w)).2.
Proof.
  intros Hi. unfold before. rewrite (take_S_r _ _ _ Hi), run_app.
  destruct (run (take i tr) w) as [os w1]. simpl. unfold bind, ret.
  by destruct (act a w1).
Qed.

Lemma joined_history tr w0 sid wid :
  (forall sid wid, ~ joined w0 sid wid) ->
  joined (run tr w0).2 sid wid ->
  exists j ack, tr !! j = Some (JoinWorkspace sid (Some wid) ack) /\
                authorized (before tr j w0) sid wid.
Proof.
  intros H0. induction tr as [|a tr IH] using rev_ind.
  - simpl. intros Hj. by destruct (H0 sid wid).
  - rewrite run_app. destruct (run tr w0) as [os w1] eqn:Hrun.
    simpl. unfold bind, ret. destruct (act a w1) as [o w2] eqn:Hact. simpl.
    intros Hj. assert (Hj' : joined (act a w1).2 sid wid) by (by rewrite Hact).
    apply act_joined_inv in Hj' as [Hold | (ack & -> & Hadm)].
    + destruct (IH Hold) as (j & ack & Hlook & Hadm). exists j, ack. split.
      * by apply lookup_app_l_Some.
      * unfold before. rewrite take_app_le; [done|].
        apply lookup_lt_Some in Hlook. lia.
    + exists (length tr), ack. split.
      * by apply list_lookup_middle.
      * unfold before. by rewrite take_app_length, Hrun.
Qed.

Lemma joined_until tr w0 sid wid j n ack :
  fresh_ids w0 ->
  tr !! j = Some (JoinWorkspace sid (Some wid) ack) ->
  authorized (before tr j w0) sid wid ->
  (forall i, (j < i < S j + n)%nat ->
             tr !! i <> Some (Disconnect sid) /\ tr !! i <> Some InitSocket) ->
  (S j + n <= length tr)%nat ->
  joined (before tr (S j + n) w0) sid wid.
Proof.
  intros Hw Hj Hadm. induction n as [|n IH]; intros Hquiet Hlen.
  - rewrite Nat.add_0_r, (before_S _ _ _ _ Hj). by apply act_join_joined.
  - destruct (lookup_lt_is_Some_2 tr (S j + n)) as [a Ha]; [lia|].
    replace (S j + S n)%nat with (S (S j + n)) by lia.
    rewrite (before_S _ _ _ _ Ha).
    destruct (Hquiet (S j + n)%nat) as [Hd Hi]; [lia|].
    apply act_joined_stable.
    + apply fresh_ids_run, Hw.
    + congruence.
    + congruence.
    + apply IH; [|lia]. intros i Hi'. apply Hquiet. lia.
Qed.

(** C8. [emitWorkspaceEvent] delivers the event, with its name and
    payload, to exactly the connections that are in the room of the
    workspace. Along any run of the gateway from start-up, a delivery
    of an event published to a workspace reaches a connection only if
    that connection earlier sent [join_workspace] for that very
    workspace and passed the membership check; so a connection that
    never joined receives nothing, and one that joined only [W]
    receives nothing published to another workspace. Conversely, once a
    connection has joined [W], every event published to [W] reaches it
    for as long as it stays connected. *)
Theorem publish_reaches_only_joined :
  (forall w wid ev pl d,
     d ∈ emitWorkspaceEvent w wid ev pl <->
     joined w (to d) wid /\ event d = ev /\ payload d = pl) /\
  (forall ms tr k wid ev pl ds d,
     tr !! k = Some (Emit wid ev pl) ->
     (run tr (boot ms)).1 !! k = Some (Delivered ds) ->
     d ∈ ds ->
     exists j ack,
       (j < k)%nat /\
       tr !! j = Some (JoinWorkspace (to d) (Some wid) ack) /\
       authorized (before tr j (boot ms)) (to d) wid) /\
  (forall ms tr j k sid wid ack ev pl,
     (j < k)%nat ->
     tr !! j = Some (JoinWorkspace sid (Some wid) ack) ->
     authorized (before tr j (boot ms)) sid wid ->
     (forall i, (j < i < k)%nat ->
                tr !! i <> Some (Disconnect sid) /\ tr !! i <> Some InitSocket) ->
     tr !! k = Some (Emit wid ev pl) ->
     exists ds,
       (run tr (boot ms)).1 !! k = Some (Delivered ds) /\
       {| to := sid; event := ev; payload := pl |} ∈ ds).
Proof.
  split_and!.
  - apply emit_elem.
  - intros ms tr k wid ev pl ds d Hk Hout Hd.
    rewrite (run_lookup _ _ _ _ Hk) in Hout. simpl in Hout.
    injection Hout as <-. apply emit_elem in Hd as (Hjoined & _).
    unfold before in Hjoined.
    apply joined_history in Hjoined as (j & ack & Hj & Hadm).
    2:{ intros sid wid' (srv & s & Hio & _). done. }
    apply lookup_take_Some in Hj as [Hj Hlt].
    exists j, ack. split_and!; [done..|].
    unfold before in *. rewrite take_take in Hadm.
    by replace (j `min` k)%nat with j in Hadm by lia.
  - intros ms tr j k sid wid ack ev pl Hjk Hj Hadm Hquiet Hk.
    rewrite (run_lookup _ _ _ _ Hk). simpl. eexists. split; [done|].
    apply emit_elem. simpl. split; [|done].
    replace k with (S j + (k - S j))%nat by lia.
    eapply joined_until; [apply fresh_ids_boot | done | done | |].
    + intros i Hi. apply Hquiet. lia.
    + apply lookup_lt_Some in Hk. lia.
Qed.

End GatewayFacts.

(** ** The properties at work on concrete worlds *)

Section DemoFacts.

Import Auth Gateway Demo.
#[local] Existing Instance Demo.lib.
#[local] Existing Instance Demo.jwt.

Lemma entropy_inj : Inj (=) (=) (entropy twoLogins).
Proof.
  intros a b Hab. simpl in Hab.
  apply (inj (String.app _)) in Hab. by apply (inj pretty) in Hab.
Qed.

Example rotate_three :
  (rotate 3 "first" twoLogins).1 = Some ["tok0"; "tok1"; "tok2"].
Proof. vm_compute. reflexivity. Qed.

(** *** Replay does not cascade *)

(** C2, as stated, fails. After "first" has been rotated, Alice has two
    valid records ("second" and the one just issued). Replaying "first"
    is refused, but "second" is then still accepted. *)
Lemma reuse_does_not_cascade :
  let w := afterRotation in
  let replayed := refresh (cookieRequest "first") w in
  rejection (cookieRequest "first") w = Some TokenRevoked /\
  length (filter (fun r => Auth.userId r = "u1" /\ revokedAt r = None /\
                           (now w < expiresAt r)%Z)
                 (refreshTokens w)) = 2%nat /\
  status replayed.1 = 401%Z /\
  rejection (cookieRequest "second") replayed.2 = None /\
  status (refresh (cookieRequest "second") replayed.2).1 = 200%Z.
Proof. vm_compute. by split_and!. Qed.

Lemma refresh_reuse_no_cascade_witness :
  let req := cookieRequest "first" in
  let stored := set_revokedAt 1000 (issued "u1" "first" 900000) in
  (truthy (presented req) = true /\
   storedFor req afterRotation = Some (0%nat, stored) /\
   is_Some (revokedAt stored)) /\
  (refresh req afterRotation
     = (json 401 (Message "Refresh token invalid") Untouched, afterRotation) /\
   (forall req', refresh req' (refresh req afterRotation).2
                 = refresh req' afterRotation) /\
   (forall req', rejection req' afterRotation = None ->
                 status (refresh req' (refresh req afterRotation).2).1 = 200%Z)).
Proof.
  intros req stored.
  assert (Ht : truthy (presented req) = true) by (vm_compute; reflexivity).
  assert (Hs : storedFor req afterRotation = Some (0%nat, stored))
    by (vm_compute; reflexivity).
  assert (Hr : is_Some (revokedAt stored)) by (by eexists).
  split; [by split_and! |].
  exact (refresh_reuse_no_cascade req afterRotation 0 stored Ht Hs Hr).
Defined.

(** *** Overlapping calls *)

(** C3, as stated, fails. Two [/refresh] calls present "first"; the
    second looks the record up before the first has saved its
    revocation. Both answer 200, each with a new refresh token, and
    both new records are valid afterwards. *)
Lemma overlapping_refreshes_both_succeed :
  let req := cookieRequest "first" in
  let out := interleave overlap (Start req) (Start req) twoLogins in
  rejection req twoLogins = None /\
  out.1 = (Done (json 200 (Session "jwt:u1" (viewOf alice))
                      (SetCookie "refreshToken" "tok0")),
           Done (json 200 (Session "jwt:u1" (viewOf alice))
                      (SetCookie "refreshToken" "tok1"))) /\
  succeeded out.1.1 && succeeded out.1.2 = true /\
  rejection (cookieRequest "tok0") out.2 = None /\
  rejection (cookieRequest "tok1") out.2 = None.
Proof. vm_compute. by split_and!. Qed.

Lemma refresh_exactly_one_iff_saved_first_witness :
  let req := cookieRequest "first" in
  let r1 := json 200 (Session "jwt:u1" (viewOf alice))
                 (SetCookie "refreshToken" "tok0") in
  let r2 := json 401 (Message "Refresh token invalid") Untouched in
  rejection req twoLogins = None /\
  (interleave [true; true; true; false; true; false; false; false]
              (Start req) (Start req) twoLogins).1 = (Done r1, Done r2) /\
  (interleave [false; false; false; true; true; false; true; true]
              (Start req) (Start req) twoLogins).1 = (Done r2, Done r1) /\
  exists ra rb w',
    interleave overlap (Start req) (Start req) twoLogins = ((Done ra, Done rb), w') /\
    status ra = 200%Z /\ setsCookie ra = true /\
    status rb = 200%Z /\ setsCookie rb = true.
Proof.
  intros req r1 r2.
  assert (Hv : rejection req twoLogins = None) by (vm_compute; reflexivity).
  destruct (refresh_exactly_one_iff_saved_first req twoLogins Hv)
    as (_ & Hone & Hboth & _).
  assert (Hin : forall b : bool, b ∈ [false; true; false; false; false]).
  { intros []; [apply list_elem_of_further|]; apply list_elem_of_here. }
  assert (Hin' : forall b : bool, b ∈ [true; true; false; true; true]).
  { intros []; [|do 2 apply list_elem_of_further]; apply list_elem_of_here. }
  split_and!.
  - done.
  - change [true; true; true; false; true; false; false; false]
      with (replicate 3 true ++ [false; true; false; false; false])%list.
    by rewrite (Hone true _ (Hin _) (Hin _)).
  - change [false; false; false; true; true; false; true; true]
      with (replicate 3 false ++ [true; true; false; true; true])%list.
    by rewrite (Hone false _ (Hin' _) (Hin' _)).
  - apply (Hboth 0%nat (issued "u1" "first" 900000) [true; false]
             [true; true; true; false; false; false]).
    + vm_compute. reflexivity.
    + intros k Hk. simpl. lia.
    + unfold moves. simpl. lia.
    + unfold moves. simpl. lia.
    + unfold moves. simpl. lia.
    + unfold moves. simpl. lia.
Defined.

(** *** 401 outside the listed causes *)


Lemma refresh_owner_missing_witness :
  let req := cookieRequest "first" in
  let stored := issued "u1" "first" 900000 in
  (truthy (presented req) = true /\
   storedFor req orphaned = Some (0%nat, stored) /\
   revokedAt stored = None /\
   (now orphaned <= expiresAt stored)%Z /\
   (forall u, u ∈ users orphaned -> _id u <> Auth.userId stored)) /\
  ((refresh req orphaned).1 = json 401 (Message "User not found") Untouched /\
   users (refresh req orphaned).2 = users orphaned /\
   refreshTokens (refresh req orphaned).2 = refreshTokens orphaned /\
   refreshTokens (refresh req orphaned).2 !! 0%nat = Some stored).
Proof.
  intros req stored.
  assert (Ht : truthy (presented req) = true) by (vm_compute; reflexivity).
  assert (Hs : storedFor req orphaned = Some (0%nat, stored))
    by (vm_compute; reflexivity).
  assert (Hr : revokedAt stored = None) by reflexivity.
  assert (He : (now orphaned <= expiresAt stored)%Z) by (vm_compute; discriminate).
  assert (Hg : forall u, u ∈ users orphaned -> _id u <> Auth.userId stored).
  { intros u Hu. simpl in Hu. by apply elem_of_nil in Hu. }
  split; [by split_and! |].
  exact (refresh_owner_missing req orphaned 0 stored Ht Hs Hr He Hg).
Defined.

(** *** Chains, logins, logouts *)

Lemma twoLogins_collision_free : collision_free twoLogins.
Proof.
  unfold collision_free, hashes. simpl. split_and!.
  - intros k _ Hin.
    repeat (apply elem_of_cons in Hin as [Hin|Hin];
            [apply (inj (String.app _)) in Hin; discriminate|]).
    by apply elem_of_nil in Hin.
  - intros j k _ _ Hjk. apply (inj (String.app _)) in Hjk.
    by apply entropy_inj.
  - intros k _. discriminate.
Qed.

Lemma twoLogins_unexpiring m : (m <= 1000)%nat -> unexpiring m twoLogins.
Proof. intros Hm i j Hi Hij Hj. simpl in *. lia. Qed.

Lemma refresh_rotation_on_use_witness :
  exists toks w',
    rotate 3 "first" twoLogins = (Some toks, w') /\
    length toks = 3%nat /\
    NoDup toks /\
    NoDup (removelast ("first" :: toks)) /\
    refresh (cookieRequest "first") w'
      = (json 401 (Message "Refresh token invalid") Untouched, w').
Proof.
  destruct refresh_rotation_on_use as (_ & Hchain & Hexists).
  destruct (Hexists 3%nat "first" twoLogins) as (toks & w' & Hrot & Hlen & Hnd).
  - vm_compute. reflexivity.
  - apply twoLogins_collision_free.
  - apply twoLogins_unexpiring. lia.
  - exists toks, w'.
    destruct (Hchain _ _ _ _ _ Hrot) as (_ & Hconsumed & _ & Hreplay).
    split_and!; [done..|].
    apply (Hreplay "first" []).
    destruct toks as [|t toks]; [done|]. apply list_elem_of_here.
Defined.

Lemma login_failures_indistinguishable_witness :
  let stranger := loginRequest "bob@example.com" "hunter2" in
  let mistaken := loginRequest "alice@example.com" "looking-glass" in
  login stranger twoLogins
    = (json 401 (Message "Invalid credentials") Untouched, twoLogins) /\
  login mistaken twoLogins
    = (json 401 (Message "Invalid credentials") Untouched, twoLogins) /\
  (login stranger twoLogins).1 = (login mistaken twoLogins).1.
Proof.
  intros stranger mistaken.
  apply (login_failures_indistinguishable stranger twoLogins mistaken twoLogins
           0 alice).
  - by split.
  - by split.
  - intros u Hu. simpl in Hu. apply list_elem_of_singleton in Hu as ->.
    vm_compute. discriminate.
  - vm_compute. reflexivity.
  - vm_compute. reflexivity.
Defined.

Lemma logout_idempotent_witness :
  let req := cookieRequest "first" in
  NoDup (tokenHash <$> refreshTokens twoLogins) /\
  let w1 := (logout req twoLogins).2 in
  let w2 := (logout req w1).2 in
  (logout req twoLogins).1 = json 200 OkTrue (ClearCookie refreshCookieName) /\
  (logout req w1).1 = json 200 OkTrue (ClearCookie refreshCookieName) /\
  refreshTokens w1
    = [ {| Auth.userId := "u1"; tokenHash := "sha256:first";
           expiresAt := 900000; revokedAt := Some 0%Z |};
        issued "u1" "second" 900000 ] /\
  rejection req w1 = Some TokenRevoked /\
  db w2 = db w1.
Proof.
  intros req.
  assert (Hnd : NoDup (tokenHash <$> refreshTokens twoLogins)).
  { vm_compute. apply NoDup_cons. split.
    - intros Hin. apply list_elem_of_singleton in Hin. discriminate.
    - apply NoDup_singleton. }
  split; [done|].
  destruct (logout_idempotent req twoLogins Hnd)
    as (Hr1 & Hr2 & _ & Hrevoke & _ & Hsame).
  destruct (Hrevoke 0%nat (issued "u1" "first" 900000)) as [Hledger Hrefused];
    [by vm_compute..|].
  by split_and!.
Defined.

(** *** The gateway *)

(** C7, as stated, fails. A member of two workspaces sends
    [join_workspace] with an empty workspace id: the failure payload
    says "Workspace required", not "Forbidden". *)
Lemma empty_workspace_is_not_forbidden :
  (join_workspace directory aliceSocket (Some EmptyString)).1
    = {| ok := false; message := Some "Workspace required" |} /\
  (join_workspace directory aliceSocket None).1
    = {| ok := false; message := Some "Workspace required" |} /\
  message (join_workspace directory aliceSocket (Some EmptyString)).1 <> Some "Forbidden" /\
  (join_workspace directory aliceSocket (Some "W9")).1
    = {| ok := false; message := Some "Forbidden" |}.
Proof. vm_compute. by split_and!. Qed.

Lemma join_workspace_ack_witness :
  (io connectedA = Some {| sockets := {[ 0%nat := aliceSocket ]}; nextId := 1 |} /\
   sockets {| sockets := {[ 0%nat := aliceSocket ]}; nextId := 1 |} !! 0%nat
     = Some aliceSocket) /\
  (join_workspace directory aliceSocket (Some "W2")).1
    = {| ok := true; message := None |} /\
  rooms (join_workspace directory aliceSocket (Some "W2")).2
    = {[ "workspace:W2" ]} ∪ ∅ /\
  (join_workspace directory aliceSocket (Some "W9")).1
    = {| ok := false; message := Some "Forbidden" |}.
Proof.
  assert (Hio : io connectedA
                = Some {| sockets := {[ 0%nat := aliceSocket ]}; nextId := 1 |})
    by reflexivity.
  assert (Hs : sockets {| sockets := {[ 0%nat := aliceSocket ]}; nextId := 1 |}
                 !! 0%nat = Some aliceSocket) by reflexivity.
  split; [by split|].
  destruct (join_workspace_ack connectedA _ 0%nat aliceSocket (Some "W2") Hio Hs)
    as (_ & _ & _ & _ & Hok).
  destruct (join_workspace_ack connectedA _ 0%nat aliceSocket (Some "W9") Hio Hs)
    as (_ & _ & _ & Hno & _).
  destruct Hok as (Hp & _ & Hrooms); [by vm_compute|].
  destruct Hno as [Hp' _].
  - intros [?|?]; discriminate.
  - intros m Hm [Hw Hu]. simpl in Hm.
    repeat (apply elem_of_cons in Hm as [->|Hm]; [vm_compute in Hw; discriminate|]).
    by apply elem_of_nil in Hm.
  - by split_and!.
Defined.

Example session_outputs :
  (run session (boot directory)).1
  = [Silent; Connected 0; Connected 1;
     Ack {| ok := true; message := None |};
     Ack {| ok := false; message := Some "Forbidden" |};
     Delivered [{| to := 0; event := "issue_created"; payload := "{issueId}" |}]].
Proof. vm_compute. reflexivity. Qed.

Lemma publish_reaches_only_joined_witness :
  exists ds,
    (run session (boot directory)).1 !! 5%nat = Some (Delivered ds) /\
    {| to := 0; event := "issue_created"; payload := "{issueId}" |} ∈ ds /\
    forall d, d ∈ ds ->
      exists j ack, (j < 5)%nat /\
        session !! j = Some (JoinWorkspace (to d) (Some "W2") ack).
Proof.
  destruct publish_reaches_only_joined as (_ & Honly & Hall).
  destruct (Hall directory session 3%nat 5%nat 0%nat "W2" true
              "issue_created" "{issueId}") as (ds & Hout & Hin).
  - lia.
  - reflexivity.
  - eexists _, _. split_and!; [by vm_compute .. | by eexists].
  - intros i Hi. assert (i = 4%nat) as -> by lia. by split.
  - reflexivity.
  - exists ds. split_and!; [done | done |].
    intros d Hd.
    destruct (Honly directory session 5%nat "W2" "issue_created" "{issueId}" ds d)
      as (j & ack & Hj & Hjoin & _); [reflexivity | done | done |].
    by exists j, ack.
Defined.

Lemma handshake_gate_witness :
  io started = Some {| sockets := ∅; nextId := 0 |} /\
  act (Connect 0 (Str "forged:A")) started = (Refused "Unauthorized", started) /\
  act (Connect 0 Absent) started = (Refused "Unauthorized", started) /\
  (forall wid ack,
     act (JoinWorkspace 0 wid ack) (act (Connect 0 (Str "forged:A")) started).2
     = (Silent, started)) /\
  exists w' srv',
    act (Connect 0 (Str "good:A")) started = (Connected 0, w') /\
    io w' = Some srv' /\
    sockets srv' !! 0%nat = Some {| data_userId := "A"; rooms := ∅ |}.
Proof.
  assert (Hio : io started = Some {| sockets := ∅; nextId := 0 |}) by reflexivity.
  split; [done|].
  destruct (handshake_gate started _ 0 (Str "forged:A") Hio) as (Hbad & Hfail & _).
  destruct (handshake_gate started _ 0 Absent Hio) as (Habsent & _ & _).
  destruct (handshake_gate started _ 0 (Str "good:A") Hio) as (_ & _ & _ & Hgood).
  split_and!.
  - apply Hbad. do 3 right. exists "forged:A". split; [done|]. by left.
  - apply Habsent. by left.
  - intros wid ack.
    destruct (Hfail "Unauthorized") as [_ Hjoin]; [by vm_compute|].
    by apply Hjoin.
  - destruct (Hgood "A") as (w' & srv' & Hc & Hw' & Hs' & _); [by vm_compute|].
    by exists w', srv'.
Defined.

End DemoFacts.

(** * Further properties of the session protocol *)

Section AuthMore.

Import Auth.
Context `{Lib}.

Lemma alter_at (f : RefreshToken -> RefreshToken) (i : nat) r (l : list RefreshToken) :
  l !! i = Some r -> alter f i l = <[i := f r]> l.
Proof.
  intros Hi. apply list_eq. intros j. destruct (decide (i = j)) as [->|Hne].
  - rewrite list_lookup_alter_eq, Hi. simpl.
    symmetry. apply list_lookup_insert_eq. by eapply lookup_lt_Some.
  - by rewrite list_lookup_alter_ne, list_lookup_insert_ne.
Qed.

Lemma register_Effect req w : Effect w (register req w).1 (register req w).2.
Proof.
  unfold register.
  destruct (negb (truthy (body_email req)) || negb (truthy (body_name req))
            || negb (truthy (body_password req))).
  { eapply Refused; simpl; eauto. }
  unfold bind, UserModel_findOne, gets, ret; simpl.
  destruct (list_find _ (users w)) as [[j u]|] eqn:Hfind; simpl.
  { eapply Refused; simpl; eauto. }
  eapply Registered; simpl; try done.
  - intros (u & Hu & Hin)%list_elem_of_fmap.
    apply list_find_None in Hfind. rewrite Forall_forall in Hfind.
    by apply (Hfind u).
  - split_and!; try done. exists (dateReads w). split_and!; simpl; [lia | lia | done].
Qed.

Lemma login_Effect req w : Effect w (login req w).1 (login req w).2.
Proof.
  unfold login.
  destruct (negb (truthy (body_email req)) || negb (truthy (body_password req))).
  { eapply Refused; simpl; eauto. }
  unfold bind, UserModel_findOne, gets, ret; simpl.
  destruct (list_find _ (users w)) as [[j u]|] eqn:Hfind; simpl.
  2:{ eapply Refused; simpl; eauto. }
  destruct (bcrypt_compare _ _); simpl.
  2:{ eapply Refused; simpl; eauto. }
  eapply (Granted _ _ _ u _ (refreshTokens w)); simpl; try done.
  - apply list_find_Some in Hfind as (Hj & _). by eapply list_elem_of_lookup_2.
  - by left.
  - split_and!; try done. exists (dateReads w). split_and!; simpl; [lia | lia | done].
Qed.

Lemma refresh_Effect req w : Effect w (refresh req w).1 (refresh req w).2.
Proof.
  destruct (rejection req w) as [k|] eqn:Hk.
  - rewrite (refresh_rejected _ _ _ Hk). simpl.
    eapply Refused; simpl; eauto; by destruct k.
  - destruct (refresh_accepted _ _ Hk)
      as (i & stored & user & Hs & Hrev & _ & Hown & _ & ->).
    pose proof Hs as (Hi & _)%list_find_Some.
    eapply (Granted _ _ _ user _
              (<[i := set_revokedAt (dates w (S (dateReads w))) stored]>
                 (refreshTokens w))); simpl; try done.
    + unfold ownerOf in Hown. apply fmap_Some in Hown as ([j u] & Hu & ->).
      apply list_find_Some in Hu as (Hj & _). by eapply list_elem_of_lookup_2.
    + right. by exists i, stored, (dates w (S (dateReads w))).
    + by rewrite (alter_at _ _ _ _ Hi).
    + split_and!; try done. exists (S (S (dateReads w))).
      split_and!; simpl; [lia | lia | done].
Qed.

Lemma logout_Effect req w : Effect w (logout req w).1 (logout req w).2.
Proof.
  apply Cleared.
  - apply logout_response.
  - rewrite logout_world. destruct (truthy (presented req)); [|done].
    by destruct (unrevokedFor req w) as [[i r]|].
  - rewrite logout_world. destruct (truthy (presented req)); [|by left].
    destruct (unrevokedFor req w) as [[i r]|] eqn:Hu; [|by left].
    apply list_find_Some in Hu as (Hi & [_ Hr] & _).
    right. exists i, r, (now w). split_and!; try done.
    simpl. by apply alter_at.
  - rewrite logout_world. destruct (truthy (presented req)); [|done].
    by destruct (unrevokedFor req w) as [[i r]|].
Qed.

Lemma handle_Effect c w : Effect w (handle c w).1 (handle c w).2.
Proof.
  destruct c; [apply register_Effect | apply login_Effect
               | apply refresh_Effect | apply logout_Effect].
Qed.

(** *** Registration *)

(** X1. [/register] answers 400 when a field is absent or empty, 409
    when some user already has the lower-cased e-mail, and changes
    nothing in either case. Otherwise it answers 201, appends one user
    (lower-cased e-mail, hashed password) and one unrevoked refresh
    record for that user, and sets the cookie to the token whose hash
    the record holds. *)
Theorem register_outcome req w :
  let e := toLowerCase (String_of (body_email req)) in
  let missing := truthy (body_email req) = false \/ truthy (body_name req) = false \/
                 truthy (body_password req) = false in
  let taken := exists u, u ∈ users w /\ email u = e in
  let user := {| _id := objectId (length (users w)); email := e;
                 name := String_of (body_name req);
                 passwordHash := bcrypt_hash (String_of (body_password req)) |} in
  (missing ->
   register req w = (json 400 (Message "Missing required fields") Untouched, w)) /\
  (~ missing -> taken ->
   register req w = (json 409 (Message "Email already in use") Untouched, w)) /\
  (~ missing -> ~ taken ->
   exists a doc,
     (register req w).1
       = json 201 (Session a (viewOf user))
              (SetCookie refreshCookieName (entropy w (draws w))) /\
     users (register req w).2 = (users w ++ [user])%list /\
     refreshTokens (register req w).2 = (refreshTokens w ++ [doc])%list /\
     userId doc = _id user /\
     tokenHash doc = hashToken (entropy w (draws w)) /\
     revokedAt doc = None).
Proof.
  intros e missing taken user. subst e missing taken user. unfold register.
  destruct (truthy (body_email req)) eqn:He; simpl.
  2:{ split_and!; [done | intros Hm; destruct Hm; by left..]. }
  destruct (truthy (body_name req)) eqn:Hn; simpl.
  2:{ split_and!; [done | intros Hm; destruct Hm; by right; left..]. }
  destruct (truthy (body_password req)) eqn:Hp; simpl.
  2:{ split_and!; [done | intros Hm; destruct Hm; by right; right..]. }
  unfold bind, UserModel_findOne, gets, ret; simpl.
  destruct (list_find _ (users w)) as [[j u]|] eqn:Hfind; simpl.
  - split_and!.
    + by intros [?|[?|?]].
    + done.
    + intros _ Hfree. exfalso. apply Hfree. exists u.
      apply list_find_Some in Hfind as (Hj & Hu & _).
      split; [by eapply list_elem_of_lookup_2 | done].
  - split_and!.
    + by intros [?|[?|?]].
    + intros _ (u & Hin & Hu). exfalso.
      apply list_find_None in Hfind. rewrite Forall_forall in Hfind.
      by apply (Hfind u).
    + intros _ _. by eexists _, _.
Qed.

(** *** Users *)

(** A call leaves the users as they are or appends one. *)
Lemma handle_users c w :
  users (handle c w).2 = users w \/
  exists u, users (handle c w).2 = (users w ++ [u])%list /\
            email u ∉ email <$> users w.
Proof.
  destruct (handle_Effect c w) as [m _ _ _ Hu _ _|_ Hu _ _
                                   |u a base doc _ Hu _ _ _ _ _
                                   |u a doc _ Hu Hfree _ _ _]; eauto.
Qed.

Lemma serve_users cs w : exists ext, users (serve cs w).2 = (users w ++ ext)%list.
Proof.
  revert w. induction cs as [|c cs IH]; intros w; simpl.
  - exists []. by rewrite app_nil_r.
  - unfold bind, ret. pose proof (handle_users c w) as Hc.
    destruct (handle c w) as [r w1]. simpl in Hc.
    destruct (IH w1) as [ext Hext]. destruct (serve cs w1) as [rs w2].
    simpl in *. rewrite Hext.
    destruct Hc as [->|(u & -> & _)]; [by exists ext|].
    exists (u :: ext). by rewrite <- app_assoc.
Qed.

(** X2. E-mail addresses stay unique: if no two users share an e-mail,
    no sequence of calls makes two users share one. *)
Theorem emails_stay_unique cs w :
  NoDup (email <$> users w) -> NoDup (email <$> users (serve cs w).2).
Proof.
  revert w. induction cs as [|c cs IH]; intros w Hnd; simpl; [done|].
  unfold bind, ret. pose proof (handle_users c w) as Hc.
  destruct (handle c w) as [r w1]. simpl in Hc.
  specialize (IH w1). destruct (serve cs w1) as [rs w2]. simpl in *.
  apply IH. destruct Hc as [->|(u & -> & Hfree)]; [done|].
  rewrite fmap_app. apply NoDup_app. split_and!; [done | | apply NoDup_singleton].
  intros x Hx ->%list_elem_of_singleton. done.
Qed.

(** A 201 from [/register] means that the fields were there, the e-mail
    was free, and the new user is the last one. *)
Lemma register_created req w :
  status (register req w).1 = 201%Z ->
  truthy (body_email req) = true /\ truthy (body_password req) = true /\
  (forall u, u ∈ users w -> email u <> toLowerCase (String_of (body_email req))) /\
  users (register req w).2
    = (users w ++ [ {| _id := objectId (length (users w));
                       email := toLowerCase (String_of (body_email req));
                       name := String_of (body_name req);
                       passwordHash := bcrypt_hash (String_of (body_password req)) |} ])%list.
Proof.
  unfold register.
  destruct (truthy (body_email req)) eqn:He; simpl; [|done].
  destruct (truthy (body_name req)) eqn:Hn; simpl; [|done].
  destruct (truthy (body_password req)) eqn:Hp; simpl; [|done].
  unfold bind, UserModel_findOne, gets, ret; simpl.
  destruct (list_find _ (users w)) as [[j u]|] eqn:Hfind; simpl; [done|].
  intros _. split_and!; try done.
  intros u Hin. apply list_find_None in Hfind. rewrite Forall_forall in Hfind.
  by apply (Hfind u).
Qed.

(** X3. Once registered, always able to log in: after a 201 from
    [/register] and any further calls, [/login] with the same e-mail and
    password answers 200 for the registered user, provided
    [bcrypt.compare] accepts a password against its own [bcrypt.hash]. *)
Theorem register_then_login req w cs req'
    (Hregistered : status (register req w).1 = 201%Z)
    (Hemail : body_email req' = body_email req)
    (Hpassword : body_password req' = body_password req)
    (Hbcrypt : bcrypt_compare (String_of (body_password req))
                 (bcrypt_hash (String_of (body_password req))) = true) :
  let w1 := (serve cs (register req w).2).2 in
  let user := {| _id := objectId (length (users w));
                 email := toLowerCase (String_of (body_email req));
                 name := String_of (body_name req);
                 passwordHash := bcrypt_hash (String_of (body_password req)) |} in
  exists a,
    (login req' w1).1
      = json 200 (Session a (viewOf user))
             (SetCookie refreshCookieName (entropy w1 (draws w1))).
Proof.
  intros w1 user.
  destruct (register_created req w Hregistered) as (He & Hp & Hfree & Husers).
  assert (Hfind : list_find
            (fun u => email u = toLowerCase (String_of (body_email req)))
            (users w1) = Some (length (users w), user)).
  { subst w1. destruct (serve_users cs (register req w).2) as [ext ->].
    rewrite Husers. apply list_find_app_l.
    rewrite list_find_app_r.
    - simpl. by rewrite decide_True by done.
    - apply list_find_None, Forall_forall. intros u Hu. by apply Hfree. }
  unfold login. rewrite Hemail, Hpassword, He, Hp.
  simpl. unfold bind, UserModel_findOne, gets, ret; simpl.
  rewrite Hfind. simpl. rewrite Hbcrypt. simpl. by eexists.
Qed.

(** *** Issued cookies *)

(** A call reads the clock at most four times and replaces neither the
    clock nor the generator. *)
Lemma handle_clock c w :
  dates (handle c w).2 = dates w /\ entropy (handle c w).2 = entropy w /\
  (dateReads w <= dateReads (handle c w).2 <= dateReads w + 4)%nat.
Proof.
  destruct c as [req|req|req|req]; simpl.
  - unfold register.
    destruct (negb (truthy (body_email req)) || negb (truthy (body_name req))
              || negb (truthy (body_password req))); [simpl; split_and!; (done || lia)|].
    unfold bind, UserModel_findOne, gets, ret; simpl.
    destruct (list_find _ (users w)) as [[j user]|]; simpl; split_and!; (done || lia).
  - unfold login.
    destruct (negb (truthy (body_email req)) || negb (truthy (body_password req)));
      [simpl; split_and!; (done || lia)|].
    unfold bind, UserModel_findOne, gets, ret; simpl.
    destruct (list_find _ (users w)) as [[j user]|]; simpl;
      [|split_and!; (done || lia)].
    destruct (bcrypt_compare _ _); simpl; split_and!; (done || lia).
  - destruct (rejection req w) as [k|] eqn:Hk.
    + rewrite (refresh_rejected _ _ _ Hk). destruct k; simpl; split_and!; (done || lia).
    + destruct (refresh_accepted _ _ Hk) as (i & stored & user & _ & _ & _ & _ & _ & ->).
      simpl. split_and!; (done || lia).
  - rewrite logout_world. destruct (truthy (presented req));
      [|split_and!; (done || lia)].
    destruct (unrevokedFor req w) as [[i r]|]; simpl; split_and!; (done || lia).
Qed.

Lemma revokes_hashes l l' : revokes l l' -> tokenHash <$> l' = tokenHash <$> l.
Proof.
  intros [->|(i & r & d & Hi & _ & ->)]; [done|].
  rewrite <- (alter_at (set_revokedAt d) i r l Hi). apply hashes_revoke.
Qed.

(** X4. A cookie that was just set is good for a refresh: when a call
    sets the refresh cookie, the generator is collision-free and the
    clock stays behind the expiry dates, [/refresh] with that cookie
    would be accepted right after, and answers 200. *)
Theorem issued_cookie_is_accepted c w n t
    (Hset : cookie (handle c w).1 = SetCookie n t)
    (Hgen : collision_free w)
    (Hclock : unexpiring 5 w) :
  n = refreshCookieName /\
  rejection (cookieRequest t) (handle c w).2 = None /\
  status (refresh (cookieRequest t) (handle c w).2).1 = 200%Z.
Proof.
  destruct Hgen as (Hnew & _ & Hne).
  destruct (handle_clock c w) as (Hdates & _ & Hreads).
  assert (Hshape : exists user base doc,
             n = refreshCookieName /\ t = entropy w (draws w) /\
             user ∈ users (handle c w).2 /\
             tokenHash <$> base = tokenHash <$> refreshTokens w /\
             refreshTokens (handle c w).2 = (base ++ [doc])%list /\
             issuedFor user w (handle c w).2 doc).
  { destruct (handle_Effect c w) as [m _ Hc _ _ _ _|Hr _ _ _
                                     |u a base doc Hr Hu Hin Hrev Hl Hdoc _
                                     |u a doc Hr Hu _ Hl Hdoc _].
    - congruence.
    - rewrite Hr in Hset. done.
    - rewrite Hr in Hset. injection Hset as <- <-.
      exists u, base, doc. split_and!; try done.
      + by rewrite Hu.
      + by apply revokes_hashes.
    - rewrite Hr in Hset. injection Hset as <- <-.
      exists u, (refreshTokens w), doc. split_and!; try done.
      rewrite Hu. apply elem_of_app. right. by apply list_elem_of_singleton. }
  destruct Hshape as (user & base & doc & -> & -> & Hin & Hbase & Hl
                      & Hown & Hhash & Hrev & k & Hk1 & Hk2 & Hexp).
  split; [done|].
  assert (Hok : rejection (cookieRequest (entropy w (draws w))) (handle c w).2 = None).
  { unfold rejection. rewrite presented_cookieRequest.
    assert (Ht : truthy (Some (entropy w (draws w))) = true).
    { apply truthy_Some. eexists. split; [done|]. by apply Hne. }
    rewrite Ht. simpl negb. cbv iota.
    unfold storedFor. rewrite presented_cookieRequest, Hl. simpl.
    rewrite list_find_app_r.
    2:{ apply list_find_None, Forall_forall. intros r Hr Hh.
        apply (Hnew (draws w)); [lia|]. unfold hashes. rewrite <- Hbase.
        apply list_elem_of_fmap. by exists r. }
    simpl. rewrite decide_True by done. simpl. rewrite Hrev.
    unfold now. rewrite Hdates, Hexp.
    rewrite (proj2 (Z.ltb_ge _ _)) by (apply Hclock; lia).
    unfold ownerOf.
    destruct (list_find_elem_of (fun u => _id u = userId doc)
                (users (handle c w).2) user Hin) as [[j u] ->]; [done|].
    done. }
  split; [done|]. by apply refresh_status.
Qed.

(** *** Logout, then refresh *)

(** X5. A refresh with the cookie that was just presented to [/logout]
    is always refused; and when the token had a record, it stays
    refused, because the record is revoked, whatever calls follow. *)
Theorem logout_then_refresh req w :
  status (refresh req (logout req w).2).1 = 401%Z /\
  (forall cs,
     truthy (presented req) = true -> is_Some (storedFor req w) ->
     rejection req (serve cs (logout req w).2).2 = Some TokenRevoked).
Proof.
  assert (Hburnt : truthy (presented req) = true -> is_Some (storedFor req w) ->
            burntIn (hashToken (String_of (presented req)))
                    (refreshTokens (logout req w).2)).
  { intros Ht [[i r] Hs]. rewrite logout_world, Ht.
    destruct (revokedAt r) as [d|] eqn:Hr.
    - assert (burntIn (hashToken (String_of (presented req))) (refreshTokens w))
        as Hb by (exists i, r; split; [done | by eexists]).
      destruct (unrevokedFor req w) as [[j r']|]; simpl; [|done].
      eapply burntIn_later; [apply later_revoke | done].
    - assert (Hu : unrevokedFor req w = Some (i, r)).
      { unfold storedFor in Hs. apply list_find_Some in Hs as (Hi & Hh & Hlt).
        apply list_find_Some. split_and!; try done.
        intros j y Hj Hji [Hy _]. by apply (Hlt j y). }
      rewrite Hu. simpl. exists i, (set_revokedAt (now w) r). split; [|by eexists].
      rewrite (list_find_alter_keep _ (set_revokedAt _) i _ i r); [|done|exact Hs].
      by rewrite decide_True. }
  split.
  - apply refresh_status_401.
    destruct (truthy (presented req)) eqn:Ht.
    2:{ unfold rejection. rewrite Ht. by eexists. }
    destruct (storedFor req w) as [[i r]|] eqn:Hs.
    + rewrite (burnt_rejected req); [by eexists | done | by apply Hburnt].
    + unfold rejection. rewrite Ht. simpl.
      assert (storedFor req (logout req w).2 = None) as ->; [|by eexists].
      unfold storedFor in *. rewrite logout_world, Ht.
      destruct (unrevokedFor req w) as [[j r']|]; simpl; [|done].
      by apply list_find_alter_None.
  - intros cs Ht Hs. apply burnt_rejected; [done|].
    eapply burntIn_later; [apply serve_later | by apply Hburnt].
Qed.

(** *** The ledger as a history *)

Lemma kept_refl l : kept l l.
Proof. intros i r Hi. exists r. by split_and!. Qed.

Lemma kept_trans l1 l2 l3 : kept l1 l2 -> kept l2 l3 -> kept l1 l3.
Proof.
  intros H12 H23 i r Hi.
  destruct (H12 _ _ Hi) as (r2 & Hi2 & Hh & Hu & He & Hr).
  destruct (H23 _ _ Hi2) as (r3 & Hi3 & Hh3 & Hu3 & He3 & Hr3).
  exists r3. split_and!; [done | congruence.. | auto].
Qed.

Lemma kept_app l k : kept l (l ++ k).
Proof.
  intros i r Hi. exists r. split_and!; try done. by apply lookup_app_l_Some.
Qed.

Lemma kept_revokes l l' : revokes l l' -> kept l l'.
Proof.
  intros [->|(i & r & d & Hi & Hr & ->)]; [apply kept_refl|].
  intros j x Hj. destruct (decide (i = j)) as [->|Hne].
  - exists (set_revokedAt d r). rewrite list_lookup_insert_eq by (by eapply lookup_lt_Some).
    assert (x = r) as -> by congruence.
    split_and!; try done. intros d'. congruence.
  - exists x. rewrite list_lookup_insert_ne by done. by split_and!.
Qed.

Lemma handle_kept c w : kept (refreshTokens w) (refreshTokens (handle c w).2).
Proof.
  destruct (handle_Effect c w) as [m _ _ _ _ Hl _|_ _ Hrev _
                                   |u a base doc _ _ _ Hrev Hl _ _
                                   |u a doc _ _ _ Hl _ _].
  - rewrite Hl. apply kept_refl.
  - by apply kept_revokes.
  - rewrite Hl. eapply kept_trans; [by apply kept_revokes | apply kept_app].
  - rewrite Hl. apply kept_app.
Qed.

(** X6. The ledger is a history: whatever calls are served, every
    refresh record stays at its position and keeps its hash, its owner
    and its expiry date, and a revocation date, once written, is never
    changed or removed. *)
Theorem ledger_is_kept cs w :
  kept (refreshTokens w) (refreshTokens (serve cs w).2) /\
  (length (refreshTokens w) <= length (refreshTokens (serve cs w).2))%nat.
Proof.
  assert (Hkept : forall cs w, kept (refreshTokens w) (refreshTokens (serve cs w).2)).
  { clear cs w. intros cs. induction cs as [|c cs IH]; intros w; simpl;
      [apply kept_refl|].
    unfold bind, ret. pose proof (handle_kept c w) as Hc.
    destruct (handle c w) as [r w1]. specialize (IH w1).
    destruct (serve cs w1) as [rs w2]. simpl in *.
    by eapply kept_trans. }
  split; [apply Hkept|].
  destruct (decide (length (refreshTokens w) = 0)%nat) as [->|Hpos]; [lia|].
  destruct (lookup_lt_is_Some_2 (refreshTokens w) (pred (length (refreshTokens w))))
    as [r Hr]; [lia|].
  destruct (Hkept cs w _ _ Hr) as (r' & Hr' & _).
  apply lookup_lt_Some in Hr'. lia.
Qed.

(** *** Counting *)

Lemma revokes_length l l' : revokes l l' -> length l' = length l.
Proof.
  intros [->|(i & r & d & _ & _ & ->)]; [done|]. apply length_insert.
Qed.

Lemma handle_counts c w :
  let r := (handle c w).1 in
  let w' := (handle c w).2 in
  length (refreshTokens w') = (length (refreshTokens w) + if setsCookie r then 1 else 0)%nat /\
  draws w' = (draws w + if setsCookie r then 1 else 0)%nat /\
  length (users w') = (length (users w) + if (status r =? 201)%Z then 1 else 0)%nat.
Proof.
  intros r w'. subst r w'. unfold setsCookie.
  destruct (handle_Effect c w) as [m _ Hc Hst Hu Hl Hd|Hr Hu Hrev Hd
                                   |u a base doc Hr Hu _ Hrev Hl _ Hd
                                   |u a doc Hr Hu _ Hl _ Hd].
  - rewrite Hc, Hu, Hl, Hd. destruct Hst as [-> | [-> | ->]]; simpl; lia.
  - rewrite Hr, Hu, Hd, (revokes_length _ _ Hrev). simpl. lia.
  - rewrite Hr, Hu, Hl, Hd, length_app, (revokes_length _ _ Hrev). simpl. lia.
  - rewrite Hr, Hu, Hl, Hd, !length_app. simpl. lia.
Qed.

(** X7. Bookkeeping: over any sequence of calls, the ledger grows by
    exactly one record, and the generator is drawn from exactly once,
    per response that sets the refresh cookie; the users grow by exactly
    one per 201. *)
Theorem serve_counts cs w :
  let rs := (serve cs w).1 in
  let w' := (serve cs w).2 in
  length rs = length cs /\
  length (refreshTokens w')
    = (length (refreshTokens w) + length (filter (fun r => setsCookie r = true) rs))%nat /\
  draws w' = (draws w + length (filter (fun r => setsCookie r = true) rs))%nat /\
  length (users w')
    = (length (users w) + length (filter (fun r => status r = 201%Z) rs))%nat.
Proof.
  revert w. induction cs as [|c cs IH]; intros w; simpl.
  - split_and!; (done || lia).
  - unfold bind, ret. pose proof (handle_counts c w) as (Hl & Hd & Hu).
    destruct (handle c w) as [r w1]. specialize (IH w1).
    destruct (serve cs w1) as [rs w2]. simpl in *.
    destruct IH as (IHn & IHl & IHd & IHu).
    rewrite !filter_cons. split_and!.
    + by rewrite IHn.
    + rewrite IHl, Hl. destruct (setsCookie r); simpl; lia.
    + rewrite IHd, Hd. destruct (setsCookie r); simpl; lia.
    + rewrite IHu, Hu. destruct (decide (status r = 201%Z)) as [Hs|Hs].
      * rewrite (proj2 (Z.eqb_eq _ _) Hs). simpl. lia.
      * rewrite (proj2 (Z.eqb_neq _ _) Hs). lia.
Qed.

(** *** Owners *)

Lemma revokes_owner l l' r' :
  revokes l l' -> r' ∈ l' -> exists r, r ∈ l /\ userId r = userId r'.
Proof.
  intros [->|(i & r & d & Hi & _ & ->)] Hin; [by exists r'|].
  apply list_elem_of_lookup in Hin as [j Hj].
  destruct (decide (i = j)) as [->|Hne].
  - rewrite list_lookup_insert_eq in Hj by (by eapply lookup_lt_Some).
    injection Hj as <-. exists r. split; [by eapply list_elem_of_lookup_2 | done].
  - rewrite list_lookup_insert_ne in Hj by done.
    exists r'. split; [by eapply list_elem_of_lookup_2 | done].
Qed.

Lemma handle_owned c w : owned w -> owned (handle c w).2.
Proof.
  intros Hw r' Hin.
  destruct (handle_Effect c w) as [m _ _ _ Hu Hl _|_ Hu Hrev _
                                   |u a base doc _ Hu Huin Hrev Hl Hdoc _
                                   |u a doc _ Hu _ Hl Hdoc _].
  - rewrite Hu. apply Hw. by rewrite <- Hl.
  - rewrite Hu. destruct (revokes_owner _ _ _ Hrev Hin) as (r & Hr & <-). by apply Hw.
  - rewrite Hu. rewrite Hl in Hin.
    apply elem_of_app in Hin as [Hin | ->%list_elem_of_singleton].
    + destruct (revokes_owner _ _ _ Hrev Hin) as (r & Hr & <-). by apply Hw.
    + exists u. split; [done|]. by destruct Hdoc as (-> & _).
  - rewrite Hu. rewrite Hl in Hin.
    apply elem_of_app in Hin as [Hin | ->%list_elem_of_singleton].
    + destruct (Hw _ Hin) as (x & Hx & Hid). exists x.
      split; [|done]. apply elem_of_app. by left.
    + exists u. split; [|by destruct Hdoc as (-> & _)].
      apply elem_of_app. right. by apply list_elem_of_singleton.
Qed.

Lemma serve_owned cs w : owned w -> owned (serve cs w).2.
Proof.
  revert w. induction cs as [|c cs IH]; intros w Hw; simpl; [done|].
  unfold bind, ret. pose proof (handle_owned c w Hw) as Hc.
  destruct (handle c w) as [r w1]. specialize (IH w1 Hc).
  by destruct (serve cs w1) as [rs w2].
Qed.

(** X8. No call orphans a refresh record. If every record belongs to a
    user, then after any sequence of calls every record still does, and
    [/refresh] never answers "User not found": that branch is reached
    only when users are removed from outside these routes. *)
Theorem owner_always_found cs w req (Howned : owned w) :
  let w' := (serve cs w).2 in
  owned w' /\
  rejection req w' <> Some UserMissing /\
  body (refresh req w').1 <> Message "User not found".
Proof.
  intros w'. subst w'. pose proof (serve_owned cs w Howned) as Hw'.
  assert (Hk : rejection req (serve cs w).2 <> Some UserMissing).
  { unfold rejection. destruct (truthy (presented req)); simpl; [|done].
    destruct (storedFor req (serve cs w).2) as [[i stored]|] eqn:Hs; [|done].
    destruct (revokedAt stored); [done|].
    destruct (expiresAt stored <? now (serve cs w).2)%Z; [done|].
    unfold storedFor in Hs. apply list_find_Some in Hs as (Hi & _).
    destruct (Hw' stored) as (u & Hu & Hid); [by eapply list_elem_of_lookup_2|].
    unfold ownerOf.
    by destruct (list_find_elem_of (fun u => _id u = userId stored)
                   (users (serve cs w).2) u Hu Hid) as [[j x] ->]. }
  split_and!; [done | done |].
  destruct (rejection req (serve cs w).2) as [k|] eqn:Hrej.
  - rewrite (refresh_rejected _ _ _ Hrej). simpl. by destruct k.
  - destruct (refresh_accepted _ _ Hrej) as (i & stored & user & _ & _ & _ & _ & _ & ->).
    done.
Qed.

(** *** Refusals *)

(** X9. A call that is refused changes nothing: every response has
    status 200, 201, 400, 401 or 409, and when it is neither 200 nor 201
    both collections are as before, the cookie is not touched and the
    body is an error message. The refresh cookie is set exactly on the
    responses that carry an access token. *)
Theorem refusals_change_nothing c w :
  let r := (handle c w).1 in
  (status r = 200%Z \/ status r = 201%Z \/ status r = 400%Z \/
   status r = 401%Z \/ status r = 409%Z) /\
  (status r <> 200%Z -> status r <> 201%Z ->
   db (handle c w).2 = db w /\ cookie r = Untouched /\ exists m, body r = Message m) /\
  (setsCookie r = true <-> exists a u, body r = Session a u).
Proof.
  intros r. subst r. unfold setsCookie, db.
  destruct (handle_Effect c w) as [m Hb Hc Hst Hu Hl _|Hr _ _ _
                                   |u a base doc Hr _ _ _ _ _ _
                                   |u a doc Hr _ _ _ _ _].
  - rewrite Hb, Hc, Hu, Hl. split_and!.
    + destruct Hst as [-> | [-> | ->]]; auto.
    + intros _ _. split_and!; [done | done | by eexists].
    + split; [done | by intros (? & ? & ?)].
  - rewrite Hr. simpl. split_and!; [auto | done |].
    split; [done | by intros (? & ? & ?)].
  - rewrite Hr. simpl. split_and!; [auto | done |].
    split; [by eexists _, _ | done].
  - rewrite Hr. simpl. split_and!; [auto | done |].
    split; [by eexists _, _ | done].
Qed.

End AuthMore.

(** * Further properties of the gateway *)

Section GatewayMore.

Import Gateway.
Context `{Jwt}.

(** *** Who can be reached *)

Lemma act_confined P a w :
  confined P w -> permitted P (memberships w) ->
  (forall ms, a = SetMemberships ms -> permitted P ms) ->
  confined P (act a w).2 /\ permitted P (memberships (act a w).2).
Proof.
  intros Hc Hp Ha.
  destruct a as [|time token|sid' wid' ack|sid'|wid' ev pl|ms]; simpl.
  - split; [|done]. intros srv sid s wid [= <-] Hs. simpl in Hs.
    by rewrite lookup_empty in Hs.
  - destruct (io w) as [srv|] eqn:Hio; [|done].
    destruct (authMiddleware time token) as [uid|e]; simpl; [|done].
    split; [|done]. intros srv' sid s wid [= <-] Hs Hroom. simpl in Hs.
    destruct (decide (nextId srv = sid)) as [<-|Hne].
    + rewrite lookup_insert_eq in Hs. injection Hs as <-.
      simpl in Hroom. by apply elem_of_empty in Hroom.
    + rewrite lookup_insert_ne in Hs by done. by eapply Hc.
  - destruct (io w) as [srv|] eqn:Hio; [|done].
    destruct (sockets srv !! sid') as [s0|] eqn:Hs0; [|done].
    destruct (join_workspace (memberships w) s0 wid') as [p s'] eqn:Hj.
    simpl. split; [|done]. intros srv' sid s wid [= <-] Hs Hroom. simpl in Hs.
    destruct (decide (sid' = sid)) as [->|Hne].
    2:{ rewrite lookup_insert_ne in Hs by done. by eapply Hc. }
    rewrite lookup_insert_eq in Hs. injection Hs as <-.
    unfold join_workspace in Hj.
    destruct (truthy wid') eqn:Hw; simpl in Hj.
    2:{ injection Hj as <- <-. by eapply Hc. }
    destruct (MembershipModel_findOne _ _ _) as [m|] eqn:Hm.
    2:{ injection Hj as <- <-. by eapply Hc. }
    injection Hj as <- <-. simpl in *.
    apply elem_of_union in Hroom as [Hnew%elem_of_singleton|Hold]; [|by eapply Hc].
    apply workspaceRoom_inj in Hnew. subst wid.
    unfold MembershipModel_findOne in Hm.
    apply fmap_Some in Hm as ([j m'] & Hfind & ->).
    apply list_find_Some in Hfind as (Hj' & [Hwid Huid] & _).
    simpl. rewrite <- Hwid, <- Huid. apply Hp. by eapply list_elem_of_lookup_2.
  - destruct (io w) as [srv|] eqn:Hio; [|done]. simpl.
    split; [|done]. intros srv' sid s wid [= <-] Hs Hroom. simpl in Hs.
    apply lookup_delete_Some in Hs as [_ Hs]. by eapply Hc.
  - done.
  - split; [|by apply Ha]. intros srv sid s wid Hio Hs Hroom. by eapply Hc.
Qed.

Lemma run_confined P tr w :
  confined P w -> permitted P (memberships w) ->
  Forall (permitted P) (tables tr) ->
  confined P (run tr w).2.
Proof.
  revert w. induction tr as [|a tr IH]; intros w Hc Hp Ht; [done|].
  simpl. unfold bind, ret.
  destruct (act_confined P a w Hc Hp) as [Hc' Hp'].
  { intros ms ->. simpl in Ht. by apply Forall_cons in Ht as [? _]. }
  destruct (act a w) as [o w1]. simpl in *.
  specialize (IH w1 Hc' Hp').
  destruct (run tr w1) as [os w2]. simpl. apply IH.
  unfold tables in *. simpl in Ht.
  destruct a; simpl in Ht; try done. by apply Forall_cons in Ht as [_ ?].
Qed.

Lemma tables_take k tr ms : ms ∈ tables (take k tr) -> ms ∈ tables tr.
Proof.
  unfold tables. rewrite !list_elem_of_omap.
  intros (a & Ha & Hms). exists a. split; [|done].
  apply list_elem_of_lookup in Ha as [i Hi].
  apply lookup_take_Some in Hi as [Hi _]. by eapply list_elem_of_lookup_2.
Qed.

(** X10. Events stay within the membership directory. Let [P] relate
    workspaces to users, and suppose every membership the directory
    ever holds during a run satisfies [P]. Then every delivery of an
    event published to a workspace goes to a connection whose user [P]
    relates to that workspace. In particular a user who is never a
    member of a workspace receives none of its events. *)
Theorem deliveries_respect_membership P ms tr k wid ev pl ds d
    (Hinitial : permitted P ms)
    (Htables : Forall (permitted P) (tables tr))
    (Hemit : tr !! k = Some (Emit wid ev pl))
    (Hout : (run tr (boot ms)).1 !! k = Some (Delivered ds))
    (Hd : d ∈ ds) :
  exists srv s,
    io (before tr k (boot ms)) = Some srv /\
    sockets srv !! to d = Some s /\
    P wid (data_userId s).
Proof.
  rewrite (run_lookup _ _ _ _ Hemit) in Hout. simpl in Hout.
  injection Hout as <-. apply emit_elem in Hd as ((srv & s & Hio & Hs & Hroom) & _).
  exists srv, s. split_and!; [done..|].
  assert (Hc : confined P (before tr k (boot ms))).
  { unfold before. apply run_confined; [by intros srv' sid s' wid' Hio' | done |].
    rewrite Forall_forall in *. intros ms' Hms'. by eapply Htables, tables_take. }
  by eapply Hc.
Qed.

(** *** Joining again *)

(** X12. Joining is idempotent and order-independent: a second
    [join_workspace] for the same workspace gets the same
    acknowledgement and leaves the socket as the first one left it, and
    two joins leave the same socket in either order. *)
Theorem join_workspace_again ms s wid wid' :
  join_workspace ms (join_workspace ms s wid).2 wid = join_workspace ms s wid /\
  (join_workspace ms (join_workspace ms s wid).2 wid').2
  = (join_workspace ms (join_workspace ms s wid').2 wid).2.
Proof.
  assert (Heq : forall a b : Socket,
            data_userId a = data_userId b -> rooms a = rooms b -> a = b).
  { intros [ua ra] [ub rb]. simpl. by intros -> ->. }
  destruct s as [uid rs]. unfold join_workspace. split.
  - destruct (truthy wid); simpl; [|reflexivity].
    destruct (MembershipModel_findOne (String_of wid) uid ms) as [m|] eqn:Hm;
      simpl; rewrite ?Hm; [|reflexivity].
    apply (f_equal2 pair); [reflexivity|]. apply Heq; simpl; [reflexivity|].
    apply set_eq. intros x. rewrite !elem_of_union. tauto.
  - destruct (truthy wid'); destruct (truthy wid); simpl;
      destruct (MembershipModel_findOne (String_of wid) uid ms) as [m|] eqn:Hm;
      destruct (MembershipModel_findOne (String_of wid') uid ms) as [m'|] eqn:Hm';
      simpl; rewrite ?Hm, ?Hm'; simpl;
      (apply Heq; simpl;
       [reflexivity | apply set_eq; intros x; rewrite ?elem_of_union; tauto]).
Qed.

(** *** The life of a socket *)

Lemma act_socket_stable a w srv sid s :
  fresh_ids w -> io w = Some srv -> sockets srv !! sid = Some s ->
  a <> InitSocket -> a <> Disconnect sid ->
  exists srv' s',
    io (act a w).2 = Some srv' /\ sockets srv' !! sid = Some s' /\
    data_userId s' = data_userId s /\ rooms s ⊆ rooms s'.
Proof.
  intros Hw Hio Hs Hi Hd.
  destruct a as [|time token|sid' wid' ack|sid'|wid' ev pl|ms]; simpl.
  - done.
  - rewrite Hio. destruct (authMiddleware time token) as [uid|e]; simpl.
    + eexists _, s. split_and!; [done | | done | done]. simpl.
      rewrite lookup_insert_ne; [done|].
      assert (sid < nextId srv)%nat by (apply Hw; [done | by eexists]). lia.
    + by exists srv, s.
  - rewrite Hio. destruct (sockets srv !! sid') as [s0|] eqn:Hs0.
    2:{ by exists srv, s. }
    destruct (decide (sid' = sid)) as [->|Hne].
    + rewrite Hs in Hs0. injection Hs0 as <-.
      unfold join_workspace. destruct (truthy wid'); simpl.
      2:{ eexists _, s. split_and!; [done | apply lookup_insert_eq | done | done]. }
      destruct (MembershipModel_findOne _ _ _); simpl.
      * eexists _, _. split_and!; [done | apply lookup_insert_eq | done |].
        simpl. set_solver.
      * eexists _, s. split_and!; [done | apply lookup_insert_eq | done | done].
    + destruct (join_workspace (memberships w) s0 wid') as [p s']. simpl.
      eexists _, s. split_and!; [done | | done | done]. simpl.
      by rewrite lookup_insert_ne.
  - rewrite Hio. simpl. eexists _, s. split_and!; [done | | done | done]. simpl.
    rewrite lookup_delete_ne; [done|]. congruence.
  - by exists srv, s.
  - by exists srv, s.
Qed.

(** X13. A socket keeps its user and never loses a room: along any
    run in which the server is not re-initialised and the socket does
    not disconnect, the socket stays connected under the same
    [userId], and every room it is in, it stays in. *)
Theorem socket_binding_is_stable tr w srv sid s
    (Hids : fresh_ids w)
    (Hio : io w = Some srv)
    (Hsocket : sockets srv !! sid = Some s)
    (Hno_init : InitSocket ∉ tr)
    (Hno_disconnect : Disconnect sid ∉ tr) :
  exists srv' s',
    io (run tr w).2 = Some srv' /\ sockets srv' !! sid = Some s' /\
    data_userId s' = data_userId s /\ rooms s ⊆ rooms s'.
Proof.
  revert w srv s Hids Hio Hsocket.
  induction tr as [|a tr IH]; intros w srv s Hids Hio Hsocket; simpl.
  - by exists srv, s.
  - unfold bind, ret.
    apply not_elem_of_cons in Hno_init as [Hi Hno_init].
    apply not_elem_of_cons in Hno_disconnect as [Hd Hno_disconnect].
    destruct (act_socket_stable a w srv sid s) as (srv1 & s1 & Hio1 & Hs1 & Hu1 & Hr1);
      [done | done | done | congruence | congruence |].
    pose proof (fresh_ids_act a w Hids) as Hids1.
    destruct (act a w) as [o w1]. simpl in *.
    destruct (IH Hno_init Hno_disconnect w1 srv1 s1 Hids1 Hio1 Hs1)
      as (srv' & s' & Hio' & Hs' & Hu' & Hr').
    destruct (run tr w1) as [os w2]. simpl in *.
    exists srv', s'. split_and!; [done | done | congruence | set_solver].
Qed.

(** *** Before start-up *)

(** X14. Until [initSocket] has run there is no gateway: every
    connection attempt, join and disconnection is ignored, every
    [emitWorkspaceEvent] delivers to nobody, and [io] stays unset. *)
Theorem nothing_before_initSocket ms tr (Hno_init : InitSocket ∉ tr) :
  io (run tr (boot ms)).2 = None /\
  forall o, o ∈ (run tr (boot ms)).1 -> o = Silent \/ o = Delivered [].
Proof.
  assert (Hgen : forall w, io w = None ->
            io (run tr w).2 = None /\
            forall o, o ∈ (run tr w).1 -> o = Silent \/ o = Delivered []).
  { induction tr as [|a tr IH]; intros w Hio; simpl.
    - split; [done|]. by intros o ?%elem_of_nil.
    - unfold bind, ret.
      apply not_elem_of_cons in Hno_init as [Hi Hno_init].
      assert (Ha : io (act a w).2 = None /\
                   ((act a w).1 = Silent \/ (act a w).1 = Delivered [])).
      { destruct a as [|time token|sid wid ack|sid|wid ev pl|ms']; simpl.
        - done.
        - rewrite Hio. split; [done | by left].
        - rewrite Hio. split; [done | by left].
        - rewrite Hio. split; [done | by left].
        - unfold emitWorkspaceEvent. rewrite Hio. split; [done | by right].
        - split; [done | by left]. }
      destruct (act a w) as [o w1]. simpl in Ha. destruct Ha as [Hio1 Ho].
      destruct (IH Hno_init w1 Hio1) as [Hio2 Hos].
      destruct (run tr w1) as [os w2]. simpl in *.
      split; [done|]. intros o' [->|Hin]%elem_of_cons; [done | by apply Hos]. }
  by apply Hgen.
Qed.

End GatewayMore.

(** * Properties of the knowledge-base link state *)

Section KnowledgeBaseFacts.

Import KnowledgeBase.

Lemma setAll_app m l k : setAll m (l ++ k) = setAll (setAll m l) k.
Proof. unfold setAll. apply foldl_app. Qed.

Lemma setAll_lookup_Some l : forall m id x,
  setAll m l !! id = Some x ->
  (x ∈ l /\ _id x = id) \/ m !! id = Some x.
Proof.
  induction l as [|y l IH]; intros m id x Hx; simpl in *; [by right|].
  apply IH in Hx as [[Hin Hid]|Hx].
  - left. split; [by apply elem_of_cons; right | done].
  - apply lookup_insert_Some in Hx as [[<- <-]|[_ Hx]].
    + left. split; [apply list_elem_of_here | done].
    + by right.
Qed.

Lemma setAll_is_Some l : forall m id,
  is_Some (m !! id) -> is_Some (setAll m l !! id).
Proof.
  induction l as [|y l IH]; intros m id Hm; simpl; [done|].
  apply IH. apply lookup_insert_is_Some.
  destruct (decide (_id y = id)); [by left | by right].
Qed.

Lemma setAll_lookup_in l : forall m id x0,
  x0 ∈ l -> _id x0 = id ->
  exists x, setAll m l !! id = Some x /\ x ∈ l /\ _id x = id.
Proof.
  induction l as [|y l IH]; intros m id x0 Hin Hid; [by apply elem_of_nil in Hin|].
  simpl. apply elem_of_cons in Hin as [->|Hin].
  - destruct (setAll_is_Some l (<[_id y := y]> m) id) as [x Hx].
    { rewrite Hid. rewrite lookup_insert_eq. by eexists. }
    exists x. split; [done|].
    apply setAll_lookup_Some in Hx as [[Hx Hxid]|Hx].
    + split; [by apply elem_of_cons; right | done].
    + rewrite <- Hid, lookup_insert_eq in Hx. injection Hx as <-.
      split; [apply list_elem_of_here | done].
  - destruct (IH (<[_id y := y]> m) id x0 Hin Hid) as (x & Hx & Hxin & Hxid).
    exists x. split_and!; [done | by apply elem_of_cons; right | done].
Qed.

Lemma combined_lookup issues extra id :
  is_Some (setAll (setAll ∅ issues) extra !! id) <->
  exists x, x ∈ (issues ++ extra)%list /\ _id x = id.
Proof.
  rewrite <- setAll_app. split.
  - intros [x Hx]. apply setAll_lookup_Some in Hx as [[Hin Hid]|Hx]; [by exists x|].
    by rewrite lookup_empty in Hx.
  - intros (x0 & Hin & Hid).
    destruct (setAll_lookup_in _ ∅ id x0 Hin Hid) as (x & Hx & _). by eexists.
Qed.

(** *** Selecting and removing *)

Lemma linkId_elem id prev : id ∈ linkId id prev.
Proof.
  unfold linkId. destruct (decide (id ∈ prev)); [done|].
  apply elem_of_app. right. by apply list_elem_of_singleton.
Qed.

Lemma filter_ne_absent (x : string) (l : list string) :
  x ∉ l -> filter (fun id => id <> x) l = l.
Proof.
  induction l as [|y l IH]; intros Hx; [done|].
  apply not_elem_of_cons in Hx as [Hy Hl].
  rewrite filter_cons, decide_True by (intros ->; by apply Hy).
  f_equal. by apply IH.
Qed.

(** X15. The list of linked ids never gets a duplicate. Selecting an
    issue that is not linked appends its id at the end of the list (and
    the issue at the end of the extra issues, unless one of them has
    its id); selecting a linked issue leaves the list as it is; either
    way the input is cleared, a duplicate-free list stays
    duplicate-free and selecting twice is the same as selecting once.
    Removing an id keeps exactly the other ids, in their order: an id
    that occurs once is cut out of the list, an id that does not occur
    changes nothing, and nothing but the list of ids is touched. *)
Theorem linked_ids_stay_distinct issue issueId st :
  let st' := handleLinkSelect issue st in
  let removed := handleRemoveLinked issueId st in
  (_id issue ∉ selectedIssueIds st ->
   selectedIssueIds st' = (selectedIssueIds st ++ [_id issue])%list) /\
  (_id issue ∈ selectedIssueIds st -> selectedIssueIds st' = selectedIssueIds st) /\
  (~ Exists (fun item => _id item = _id issue) (extraLinkedIssues st) ->
   extraLinkedIssues st' = (extraLinkedIssues st ++ [issue])%list) /\
  (Exists (fun item => _id item = _id issue) (extraLinkedIssues st) ->
   extraLinkedIssues st' = extraLinkedIssues st) /\
  linkInput st' = EmptyString /\
  (NoDup (selectedIssueIds st) -> NoDup (selectedIssueIds st')) /\
  handleLinkSelect issue st' = st' /\
  (forall id, id ∈ selectedIssueIds removed <->
              id ∈ selectedIssueIds st /\ id <> issueId) /\
  (forall l1 l2, selectedIssueIds st = (l1 ++ issueId :: l2)%list ->
     issueId ∉ l1 -> issueId ∉ l2 ->
     selectedIssueIds removed = (l1 ++ l2)%list) /\
  (issueId ∉ selectedIssueIds st -> removed = st) /\
  selectedIssueIds removed `sublist_of` selectedIssueIds st /\
  (NoDup (selectedIssueIds st) -> NoDup (selectedIssueIds removed)) /\
  extraLinkedIssues removed = extraLinkedIssues st /\
  linkInput removed = linkInput st.
Proof.
  intros st' removed. subst st' removed. simpl. split_and!.
  - intros Hin. unfold linkId. by rewrite decide_False.
  - intros Hin. unfold linkId. by rewrite decide_True.
  - intros He. unfold keepIssue. by rewrite decide_False.
  - intros He. unfold keepIssue. by rewrite decide_True.
  - done.
  - intros Hnd. unfold linkId. destruct (decide (_id issue ∈ selectedIssueIds st)); [done|].
    apply NoDup_app. split_and!; [done | | apply NoDup_singleton].
    intros x Hx ->%list_elem_of_singleton. done.
  - unfold handleLinkSelect. simpl. f_equal.
    + unfold linkId at 1. by rewrite decide_True by apply linkId_elem.
    + assert (He' : Exists (fun item => _id item = _id issue)
                      (keepIssue issue (extraLinkedIssues st))).
      { unfold keepIssue.
        destruct (decide (Exists (fun item => _id item = _id issue)
                            (extraLinkedIssues st))) as [He|He]; [done|].
        apply Exists_app. right. by apply Exists_cons_hd. }
      unfold keepIssue at 1. by rewrite decide_True by exact He'.
  - intros id. rewrite list_elem_of_filter. tauto.
  - intros l1 l2 -> H1 H2.
    rewrite filter_app, filter_cons, decide_False by (intros Hne; by apply Hne).
    by rewrite !filter_ne_absent.
  - intros Hin. destruct st as [ids input extra]. unfold handleRemoveLinked. simpl in *.
    by rewrite filter_ne_absent.
  - apply sublist_filter.
  - intros Hnd. by apply NoDup_filter.
  - done.
  - done.
Qed.

(** X16. Removing undoes selecting: when the issue was not linked,
    selecting it and then removing it gives back the list of linked
    ids as it was. *)
Theorem remove_undoes_select issue st
    (Hnew : _id issue ∉ selectedIssueIds st) :
  selectedIssueIds (handleRemoveLinked (_id issue) (handleLinkSelect issue st))
  = selectedIssueIds st.
Proof.
  simpl. unfold linkId. rewrite decide_False by done.
  rewrite filter_app, filter_cons, decide_False by (intros Hne; by apply Hne).
  rewrite filter_nil, app_nil_r.
  induction (selectedIssueIds st) as [|x l IH]; [done|].
  apply not_elem_of_cons in Hnew as [Hx Hl].
  rewrite filter_cons, decide_True by (intros ->; by apply Hx).
  f_equal. by apply IH.
Qed.

(** *** What the page shows as linked *)

Lemma linkedIssues_elem issues st x :
  x ∈ linkedIssues issues st <->
  _id x ∈ selectedIssueIds st /\
  setAll (setAll ∅ issues) (extraLinkedIssues st) !! _id x = Some x.
Proof.
  unfold linkedIssues. rewrite list_elem_of_omap. split.
  - intros (id & Hid & Hx). pose proof Hx as Hx'.
    rewrite <- setAll_app in Hx'.
    apply setAll_lookup_Some in Hx' as [[_ <-]|Hx']; [done|].
    by rewrite lookup_empty in Hx'.
  - intros [Hid Hx]. by exists (_id x).
Qed.

Lemma extra_is_linked issues st x0 :
  x0 ∈ extraLinkedIssues st -> _id x0 ∈ selectedIssueIds st ->
  exists x, x ∈ linkedIssues issues st /\ x ∈ extraLinkedIssues st /\
            _id x = _id x0.
Proof.
  intros Hin Hsel.
  destruct (setAll_lookup_in (extraLinkedIssues st) (setAll ∅ issues)
              (_id x0) x0 Hin eq_refl) as (x & Hx & Hxin & Hxid).
  exists x. split_and!; [|done..].
  apply linkedIssues_elem. rewrite Hxid. by split.
Qed.

Lemma missing_elem issues st id :
  id ∈ missing issues st <->
  id ∈ selectedIssueIds st /\ id ∉ _id <$> linkedIssues issues st.
Proof.
  unfold missing. rewrite list_elem_of_filter, elem_of_list_to_set.
  rewrite <- fmap_app, !list_elem_of_fmap.
  split.
  - intros [Hno Hsel]. split; [done|].
    intros (x & -> & [_ Hx]%linkedIssues_elem).
    apply Hno.
    assert (is_Some (setAll (setAll ∅ issues) (extraLinkedIssues st) !! _id x))
      as (y & Hy & Hyid)%combined_lookup by (by eexists).
    by exists y.
  - intros [Hsel Hno]. split; [|done].
    intros (y & -> & Hy). apply Hno.
    assert (is_Some (setAll (setAll ∅ issues) (extraLinkedIssues st) !! _id y))
      as [x Hx] by (apply combined_lookup; by exists y).
    exists x.
    assert (_id x = _id y) as Hxy.
    { pose proof Hx as Hx'. rewrite <- setAll_app in Hx'.
      apply setAll_lookup_Some in Hx' as [[_ ?]|Hx']; [done|].
      by rewrite lookup_empty in Hx'. }
    split; [done|]. apply linkedIssues_elem. rewrite Hxy. by split.
Qed.

(** The issue a map built by [setAll] holds for an id is the last one
    of the list with that id, or the one the map held before. *)
Lemma setAll_lookup_last l : forall m id x,
  setAll m l !! id = Some x ->
  (exists l1 l2, l = (l1 ++ x :: l2)%list /\ _id x = id /\
                 Forall (fun y => _id y <> id) l2) \/
  (Forall (fun y => _id y <> id) l /\ m !! id = Some x).
Proof.
  induction l as [|y l IH]; intros m id x Hx; simpl in *.
  - right. by split.
  - apply IH in Hx as [(l1 & l2 & -> & Hid & Hl2)|[Hl Hx]].
    + left. by exists (y :: l1), l2.
    + apply lookup_insert_Some in Hx as [[Hy <-]|[Hy Hx]].
      * left. by exists [], l.
      * right. split; [by apply Forall_cons | done].
Qed.

Lemma linkedIssues_ids issues st :
  _id <$> linkedIssues issues st
  = filter (fun id => id ∈ _id <$> (issues ++ extraLinkedIssues st)%list)
           (selectedIssueIds st).
Proof.
  unfold linkedIssues.
  remember (fun id => setAll (setAll ∅ issues) (extraLinkedIssues st) !! id)
    as f eqn:Hf.
  induction (selectedIssueIds st) as [|id ids IH]; [done|].
  simpl. rewrite filter_cons.
  destruct (f id) as [x|] eqn:Hx; rewrite Hf in Hx.
  - assert (Hid : _id x = id).
    { rewrite <- setAll_app in Hx.
      apply setAll_lookup_Some in Hx as [[_ ?]|Hx]; [done|].
      by rewrite lookup_empty in Hx. }
    rewrite decide_True.
    + rewrite fmap_cons, Hid. f_equal. exact IH.
    + apply list_elem_of_fmap.
      assert (is_Some (setAll (setAll ∅ issues) (extraLinkedIssues st) !! id))
        as (y & Hy & Hyid)%combined_lookup by (by eexists).
      by exists y.
  - rewrite decide_False; [exact IH|].
    intros (y & -> & Hy)%list_elem_of_fmap.
    assert (is_Some (setAll (setAll ∅ issues) (extraLinkedIssues st) !! _id y))
      as [x Hx'] by (apply combined_lookup; by exists y).
    congruence.
Qed.

(** X17. The linked issues follow the selection. For each selected id
    that some workspace or extra issue has, exactly one issue is shown,
    in the order of the selection, and for no other id. The issue shown
    for an id is the last one with that id among the workspace's issues
    followed by the extra ones, so an extra issue shadows the
    workspace's issue of the same id: when an extra issue has the id,
    the issue shown is an extra one. The ids to fetch are exactly the
    selected ids for which no issue is shown. *)
Theorem linked_issues_follow_selection issues st :
  _id <$> linkedIssues issues st
  = filter (fun id => id ∈ _id <$> (issues ++ extraLinkedIssues st)%list)
           (selectedIssueIds st) /\
  (forall x, x ∈ linkedIssues issues st ->
     _id x ∈ selectedIssueIds st /\
     exists l1 l2, (issues ++ extraLinkedIssues st)%list = (l1 ++ x :: l2)%list /\
                   Forall (fun y => _id y <> _id x) l2) /\
  (forall x e, x ∈ linkedIssues issues st -> e ∈ extraLinkedIssues st ->
     _id e = _id x -> x ∈ extraLinkedIssues st) /\
  (forall x0, x0 ∈ extraLinkedIssues st -> _id x0 ∈ selectedIssueIds st ->
     exists x, x ∈ linkedIssues issues st /\ x ∈ extraLinkedIssues st /\
               _id x = _id x0) /\
  (forall id, id ∈ missing issues st <->
     id ∈ selectedIssueIds st /\ id ∉ _id <$> linkedIssues issues st).
Proof.
  split_and!.
  - apply linkedIssues_ids.
  - intros x [Hid Hx]%linkedIssues_elem. split; [done|].
    rewrite <- setAll_app in Hx.
    apply setAll_lookup_last in Hx as [(l1 & l2 & Hl & _ & Hl2)|[_ Hx]].
    + by exists l1, l2.
    + by rewrite lookup_empty in Hx.
  - intros x e [_ Hx]%linkedIssues_elem He Hid.
    apply setAll_lookup_last in Hx as [(l1 & l2 & -> & _ & _)|[Hnone _]].
    + apply elem_of_app. right. apply list_elem_of_here.
    + rewrite Forall_forall in Hnone. by destruct (Hnone e He).
  - apply extra_is_linked.
  - apply missing_elem.
Qed.

(** X18. A selected issue is shown at once: right after
    [handleLinkSelect], an issue with the selected id is among the
    linked issues and the id is not among those to fetch, whatever the
    list of the workspace's issues holds. *)
Theorem selected_issue_is_shown issues issue st :
  let st' := handleLinkSelect issue st in
  (exists x, x ∈ linkedIssues issues st' /\ _id x = _id issue) /\
  _id issue ∉ missing issues st'.
Proof.
  intros st'.
  assert (Hsel : _id issue ∈ selectedIssueIds st') by apply linkId_elem.
  assert (Hextra : exists x0, x0 ∈ extraLinkedIssues st' /\ _id x0 = _id issue).
  { subst st'. simpl. unfold keepIssue.
    destruct (decide (Exists (fun item => _id item = _id issue)
                        (extraLinkedIssues st))) as [He|He].
    - apply Exists_exists in He as (x0 & Hin & Hid). by exists x0.
    - exists issue. split; [|done]. apply elem_of_app. right.
      by apply list_elem_of_singleton. }
  destruct Hextra as (x0 & Hin & Hid).
  destruct (extra_is_linked issues st' x0 Hin) as (x & Hx & _ & Hxid);
    [by rewrite Hid|].
  split; [exists x; split; [done | congruence]|].
  intros [_ Hno]%missing_elem. apply Hno. apply list_elem_of_fmap.
  exists x. split; [congruence | done].
Qed.

(** *** Suggestions *)

(** X19. The suggestions are at most six issues of the workspace, in
    the workspace's order, none of them already linked and each
    matching the query; an empty query gives none. *)
Theorem suggestions_are_few_and_new trim toLowerCase includes issues st :
  let q := toLowerCase (trim (linkInput st)) in
  let suggestions := issueSuggestions trim toLowerCase includes issues st in
  (length suggestions <= 6)%nat /\
  suggestions `sublist_of` issues /\
  (forall x, x ∈ suggestions ->
     (_id x ∉ selectedIssueIds st) /\ matchesQuery toLowerCase includes q x = true) /\
  (q = EmptyString -> suggestions = []).
Proof.
  intros q suggestions. subst q suggestions. unfold issueSuggestions.
  destruct (truthy (Some (toLowerCase (trim (linkInput st))))) eqn:Hq.
  - split_and!.
    + rewrite length_take. lia.
    + etrans; [apply sublist_take|]. etrans; apply sublist_filter.
    + intros x Hx. apply elem_of_take in Hx as (i & Hx & _).
      apply list_elem_of_lookup_2 in Hx.
      apply list_elem_of_filter in Hx as [Hm Hx].
      by apply list_elem_of_filter in Hx as [Hs _].
    + intros Hempty. rewrite Hempty in Hq. done.
  - split_and!; [simpl; lia | apply sublist_nil_l | by intros x ?%elem_of_nil | done].
Qed.

(** *** The toggle of the earlier page *)

(** X20. The toggle flips exactly the issue it is given: afterwards the
    id is linked if and only if it was not, and every other id is linked
    as before; a duplicate-free list stays duplicate-free. Toggling an
    unlinked issue twice gives back the list as it was; toggling a
    linked issue twice moves it to the end. *)
Theorem toggle_flips_one issueId prev :
  (issueId ∈ toggleLinked issueId prev <-> issueId ∉ prev) /\
  (forall id, id <> issueId -> id ∈ toggleLinked issueId prev <-> id ∈ prev) /\
  (NoDup prev -> NoDup (toggleLinked issueId prev)) /\
  (issueId ∉ prev -> toggleLinked issueId (toggleLinked issueId prev) = prev) /\
  (issueId ∈ prev ->
   toggleLinked issueId (toggleLinked issueId prev)
   = (filter (fun id => id <> issueId) prev ++ [issueId])%list).
Proof.
  assert (Hout : issueId ∉ filter (fun id => id <> issueId) prev).
  { intros [Hne _]%list_elem_of_filter. by apply Hne. }
  assert (Hback : filter (fun id => id <> issueId) (prev ++ [issueId])%list
                  = filter (fun id => id <> issueId) prev).
  { rewrite filter_app, filter_cons, decide_False by (intros Hne; by apply Hne).
    by rewrite filter_nil, app_nil_r. }
  unfold toggleLinked. split_and!.
  - destruct (decide (issueId ∈ prev)) as [Hin|Hin]; [tauto|].
    split; [done|]. intros _. apply elem_of_app. right.
    by apply list_elem_of_singleton.
  - intros id Hne. destruct (decide (issueId ∈ prev)) as [Hin|Hin].
    + rewrite list_elem_of_filter. tauto.
    + rewrite elem_of_app, list_elem_of_singleton. tauto.
  - intros Hnd. destruct (decide (issueId ∈ prev)) as [Hin|Hin].
    + by apply NoDup_filter.
    + apply NoDup_app. split_and!; [done | | apply NoDup_singleton].
      intros x Hx ->%list_elem_of_singleton. done.
  - intros Hin. rewrite (decide_False (P := issueId ∈ prev)) by done.
    rewrite decide_True by (apply elem_of_app; right; by apply list_elem_of_singleton).
    rewrite Hback. clear Hout Hback.
    induction prev as [|x l IH]; [done|].
    apply not_elem_of_cons in Hin as [Hx Hl].
    rewrite filter_cons, decide_True by (intros ->; by apply Hx).
    f_equal. by apply IH.
  - intros Hin. rewrite (decide_True (P := issueId ∈ prev)) by done.
    by rewrite decide_False by exact Hout.
Qed.

End KnowledgeBaseFacts.

(** * Properties of the dashboard *)

Section DashboardFacts.

Import Dashboard.

Lemma withChange_keys fields changes k label format fallback segments :
  key <$> withChange fields changes k label format fallback segments
  = ((key <$> segments)
       ++ filter (fun k => is_Some (changes ≫= (fun c => c !! k)) \/ k ∈ fields) [k])%list.
Proof.
  unfold withChange. rewrite filter_cons, filter_nil.
  destruct (changes ≫= (fun c => c !! k)) as [change|] eqn:Hc.
  - rewrite decide_True by (left; by eexists). by rewrite fmap_app.
  - destruct (decide (k ∈ fields)) as [Hin|Hin].
    + rewrite decide_True by (by right). by rewrite fmap_app.
    + rewrite decide_False; [by rewrite app_nil_r|].
      intros [[? ?]|?]; done.
Qed.

Lemma note_keys fields k text segments :
  key <$> note fields k text segments
  = ((key <$> segments) ++ filter (fun k => k ∈ fields) [k])%list.
Proof.
  unfold note. rewrite filter_cons, filter_nil.
  destruct (decide (k ∈ fields)); [by rewrite fmap_app | by rewrite app_nil_r].
Qed.

Lemma buildIssueUpdateSegments_keys fields changes issue memberMap :
  fields <> [] ->
  key <$> buildIssueUpdateSegments (Some fields) changes issue memberMap
  = (filter (fun k => is_Some (changes ≫= (fun c => c !! k)) \/ k ∈ fields) changeKeys
       ++ filter (fun k => k ∈ fields) noteKeys)%list.
Proof.
  intros Hne. unfold buildIssueUpdateSegments.
  destruct fields as [|f fields]; [done|].
  rewrite !note_keys, !withChange_keys. unfold changeKeys, noteKeys.
  rewrite !filter_cons, !filter_nil.
  repeat case_decide; simpl; reflexivity.
Qed.

(** X21. The segments of an issue update follow a fixed order. Without
    fields (absent or empty) there is no segment, even when changes are
    recorded. Otherwise the keys of the segments are, in this order and
    each at most once, priority, status, assigneeId and title when the
    key has a recorded change or is among the fields, then labels,
    description and dueDate when the key is among the fields: a recorded
    change of one of the last three does not show by itself, and the
    order of the fields does not matter. A key with a recorded change
    shows the change, not the note. *)
Theorem segments_follow_fields fields changes issue memberMap :
  let segments := buildIssueUpdateSegments fields changes issue memberMap in
  (fields = None \/ fields = Some [] -> segments = []) /\
  (key <$> segments) `sublist_of` (changeKeys ++ noteKeys)%list /\
  NoDup (key <$> segments) /\
  (forall fs, fields = Some fs -> fs <> [] -> forall k,
     k ∈ key <$> segments <->
     (k ∈ changeKeys /\ is_Some (changes ≫= (fun c => c !! k))) \/
     (k ∈ (changeKeys ++ noteKeys)%list /\ k ∈ fs)) /\
  (forall k text, Noted k text ∈ segments ->
     changes ≫= (fun c => c !! k) = None \/ k ∈ noteKeys).
Proof.
  intros segments. subst segments.
  assert (Hnd : NoDup (changeKeys ++ noteKeys)%list).
  { unfold changeKeys, noteKeys. simpl.
    repeat (apply NoDup_cons; split;
            [intros Hin; repeat (apply elem_of_cons in Hin as [Hin|Hin];
                                 [discriminate|]);
             by apply elem_of_nil in Hin|]).
    apply NoDup_nil_2. }
  assert (Hsub : (key <$> buildIssueUpdateSegments fields changes issue memberMap)
                   `sublist_of` (changeKeys ++ noteKeys)%list).
  { destruct fields as [[|f fs]|]; [apply sublist_nil_l | | apply sublist_nil_l].
    rewrite buildIssueUpdateSegments_keys by done.
    apply sublist_app; apply sublist_filter. }
  split_and!.
  - by intros [-> | ->].
  - done.
  - by eapply sublist_NoDup.
  - intros fs -> Hne k. rewrite buildIssueUpdateSegments_keys by done.
    rewrite elem_of_app, !list_elem_of_filter, elem_of_app. tauto.
  - intros k text Hin. destruct fields as [[|f fs]|];
      [by apply elem_of_nil in Hin | | by apply elem_of_nil in Hin].
    unfold buildIssueUpdateSegments, note, withChange in Hin.
    repeat match type of Hin with
           | context [decide ?P] => destruct (decide P)
           | context [match ?c ≫= ?f with _ => _ end] =>
               let H := fresh "Hc" in destruct (c ≫= f) eqn:H
           end;
    simpl in Hin;
    repeat (apply elem_of_cons in Hin as [Hin|Hin];
            [first [discriminate Hin
                   | injection Hin as -> ->;
                     first [by left
                           | right; unfold noteKeys;
                             repeat first [apply list_elem_of_here
                                          | apply list_elem_of_further]]]|]);
    by apply elem_of_nil in Hin.
Qed.

Section CountFacts.

Variable time : string -> option Z.

(** X22. The counts of the issue-flow widget: the unassigned issues are
    among the created ones, which are among all issues; the resolved
    ones are among the done ones; [maxCount] is at least 1 and at least
    both counts, so neither bar is wider than the track and the division
    is never by zero; and the three status badges add up to the number
    of issues exactly when every status is one of the three. *)
Theorem counts_are_bounded issues issueWindowStart :
  let created := createdCount time issues issueWindowStart in
  let resolved := resolvedCount time issues issueWindowStart in
  let unassigned := unassignedCount time issues issueWindowStart in
  let top := maxCount time issues issueWindowStart in
  (unassigned <= created)%nat /\ (created <= length issues)%nat /\
  (resolved <= statusCount "DONE" issues)%nat /\
  (1 <= top)%nat /\ (created <= top)%nat /\ (resolved <= top)%nat /\
  (top = 1%nat \/ top = created \/ top = resolved) /\
  (statusCount "OPEN" issues + statusCount "IN_PROGRESS" issues
     + statusCount "DONE" issues <= length issues)%nat /\
  (statusCount "OPEN" issues + statusCount "IN_PROGRESS" issues
     + statusCount "DONE" issues = length issues <->
   Forall (fun issue => status issue = "OPEN" \/ status issue = "IN_PROGRESS" \/
                        status issue = "DONE") issues).
Proof.
  intros created resolved unassigned top.
  subst created resolved unassigned top.
  unfold maxCount, createdCount, resolvedCount, unassignedCount, statusCount.
  assert (Hbadges : forall l : list Issue,
            (length (filter (fun issue => status issue = "OPEN") l)
             + length (filter (fun issue => status issue = "IN_PROGRESS") l)
             + length (filter (fun issue => status issue = "DONE") l) <= length l)%nat /\
            (length (filter (fun issue => status issue = "OPEN") l)
             + length (filter (fun issue => status issue = "IN_PROGRESS") l)
             + length (filter (fun issue => status issue = "DONE") l) = length l <->
             Forall (fun issue => status issue = "OPEN" \/ status issue = "IN_PROGRESS" \/
                                  status issue = "DONE") l)).
  { induction l as [|x l [IHle IHeq]]; [by split|].
    rewrite !filter_cons, Forall_cons.
    destruct (decide (status x = "OPEN")) as [Ho|Ho];
      destruct (decide (status x = "IN_PROGRESS")) as [Hp|Hp];
      destruct (decide (status x = "DONE")) as [Hd|Hd];
      try congruence; simpl; (split; [lia|]); rewrite <- IHeq;
      (split; [intros ?; split; [(by auto) || lia | lia]
              | intros [[?|[?|?]] ?]; (done || lia)]). }
  split_and!.
  - induction issues as [|x l IH]; [done|]. rewrite !filter_cons.
    destruct (decide (since time issueWindowStart (createdAt x) = true)) as [Hs|Hs].
    + destruct (decide (assigneeId x = None /\ _)); simpl; lia.
    + rewrite decide_False by tauto. done.
  - apply length_filter.
  - induction issues as [|x l IH]; [done|]. rewrite !filter_cons.
    destruct (decide (status x = "DONE")) as [Hs|Hs].
    + destruct (decide (status x = "DONE" /\ _)); simpl; lia.
    + rewrite decide_False by tauto. done.
  - lia.
  - lia.
  - lia.
  - lia.
  - apply Hbadges.
  - apply Hbadges.
Qed.

End CountFacts.

End DashboardFacts.

(** * The further properties on concrete worlds *)

Section DemoMore.

Import Auth Gateway Demo.
#[local] Existing Instance Demo.lib.
#[local] Existing Instance Demo.jwt.

Lemma emails_stay_unique_witness :
  let bob := registerRequest "bob@example.com" "Bob" "hunter2" in
  let bobby := registerRequest "bob@example.com" "Bobby" "swordfish" in
  NoDup (email <$> users twoLogins) /\
  NoDup (email <$> users (serve [Register bob; Register bobby] twoLogins).2).
Proof.
  intros bob bobby.
  assert (Hnd : NoDup (email <$> users twoLogins)) by apply NoDup_singleton.
  split; [done|].
  exact (emails_stay_unique [Register bob; Register bobby] twoLogins Hnd).
Defined.

Lemma register_then_login_witness :
  let req := registerRequest "bob@example.com" "Bob" "hunter2" in
  let req' := loginRequest "bob@example.com" "hunter2" in
  let w1 := (serve [Logout (cookieRequest "first")] (register req twoLogins).2).2 in
  status (register req twoLogins).1 = 201%Z /\
  exists a,
    (login req' w1).1
      = json 200 (Session a {| view_id := "u2"; view_email := "bob@example.com";
                               view_name := "Bob" |})
             (SetCookie "refreshToken" "tok1").
Proof.
  intros req req' w1.
  assert (Hregistered : status (register req twoLogins).1 = 201%Z)
    by (vm_compute; reflexivity).
  split; [done|].
  exact (register_then_login req twoLogins [Logout (cookieRequest "first")] req'
           Hregistered eq_refl eq_refl eq_refl).
Defined.

Lemma issued_cookie_is_accepted_witness :
  let c := Login (loginRequest "alice@example.com" "wonderland") in
  cookie (handle c twoLogins).1 = SetCookie "refreshToken" "tok0" /\
  rejection (cookieRequest "tok0") (handle c twoLogins).2 = None /\
  status (refresh (cookieRequest "tok0") (handle c twoLogins).2).1 = 200%Z.
Proof.
  intros c.
  assert (Hset : cookie (handle c twoLogins).1 = SetCookie "refreshToken" "tok0")
    by (vm_compute; reflexivity).
  split; [done|].
  exact (proj2 (issued_cookie_is_accepted c twoLogins "refreshToken" "tok0" Hset
                  twoLogins_collision_free (twoLogins_unexpiring 5 ltac:(lia)))).
Defined.

Lemma twoLogins_owned : owned twoLogins.
Proof.
  intros r Hr. exists alice. split; [apply list_elem_of_here|].
  simpl in Hr. repeat (apply elem_of_cons in Hr as [->|Hr]; [done|]).
  by apply elem_of_nil in Hr.
Qed.

Lemma owner_always_found_witness :
  let cs := [Login (loginRequest "alice@example.com" "wonderland");
             Refresh (cookieRequest "first")] in
  let w' := (serve cs twoLogins).2 in
  owned twoLogins /\
  owned w' /\
  rejection (cookieRequest "tok0") w' <> Some UserMissing /\
  body (refresh (cookieRequest "tok0") w').1 <> Message "User not found".
Proof.
  intros cs w'. split; [apply twoLogins_owned|].
  exact (owner_always_found cs twoLogins (cookieRequest "tok0") twoLogins_owned).
Defined.

Lemma deliveries_respect_membership_witness :
  let P := fun wid uid : string => uid = "A" \/ wid = "W1" in
  let d := {| to := 0; event := "issue_created"; payload := "{issueId}" |} in
  (permitted P directory /\
   session !! 5%nat = Some (Emit "W2" "issue_created" "{issueId}") /\
   (run session (boot directory)).1 !! 5%nat = Some (Delivered [d])) /\
  exists srv s,
    io (before session 5 (boot directory)) = Some srv /\
    sockets srv !! 0%nat = Some s /\
    P "W2" (data_userId s).
Proof.
  intros P d.
  assert (Hinitial : permitted P directory).
  { intros m Hm. unfold P. simpl in Hm.
    repeat (apply elem_of_cons in Hm as [->|Hm]; [simpl; tauto|]).
    by apply elem_of_nil in Hm. }
  assert (Htables : Forall (permitted P) (tables session)) by constructor.
  assert (Hemit : session !! 5%nat = Some (Emit "W2" "issue_created" "{issueId}"))
    by reflexivity.
  assert (Hout : (run session (boot directory)).1 !! 5%nat = Some (Delivered [d]))
    by (vm_compute; reflexivity).
  split; [by split_and! |].
  exact (deliveries_respect_membership P directory session 5 "W2" "issue_created"
           "{issueId}" [d] d Hinitial Htables Hemit Hout (list_elem_of_here _ _)).
Defined.

Lemma socket_binding_is_stable_witness :
  let tr := [Connect 0 (Str "good:B"); JoinWorkspace 0 (Some "W2") true;
             JoinWorkspace 0 (Some "W9") true; Disconnect 1] in
  let srv := {| sockets := {[ 0%nat := aliceSocket ]}; nextId := 1 |} in
  (fresh_ids connectedA /\ (InitSocket ∉ tr) /\ Disconnect 0 ∉ tr) /\
  exists srv' s',
    io (run tr connectedA).2 = Some srv' /\ sockets srv' !! 0%nat = Some s' /\
    data_userId s' = "A" /\ rooms aliceSocket ⊆ rooms s'.
Proof.
  intros tr srv.
  assert (Hids : fresh_ids connectedA).
  { intros srv0 sid [= <-] [s Hs]. simpl in *.
    apply lookup_singleton_Some in Hs as [<- _]. lia. }
  assert (Hno_init : InitSocket ∉ tr).
  { intros Hin. repeat (apply elem_of_cons in Hin as [Hin|Hin]; [discriminate|]).
    by apply elem_of_nil in Hin. }
  assert (Hno_disconnect : Disconnect 0 ∉ tr).
  { intros Hin. repeat (apply elem_of_cons in Hin as [Hin|Hin]; [discriminate|]).
    by apply elem_of_nil in Hin. }
  split; [by split_and! |].
  exact (socket_binding_is_stable tr connectedA srv 0 aliceSocket Hids eq_refl
           (lookup_singleton_eq _ _) Hno_init Hno_disconnect).
Defined.

Lemma nothing_before_initSocket_witness :
  let tr := [Connect 0 (Str "good:A"); JoinWorkspace 0 (Some "W2") true;
             Emit "W2" "issue_created" "{issueId}"] in
  (InitSocket ∉ tr) /\
  io (run tr (boot directory)).2 = None /\
  forall o, o ∈ (run tr (boot directory)).1 -> o = Silent \/ o = Delivered [].
Proof.
  intros tr.
  assert (Hno_init : InitSocket ∉ tr).
  { intros Hin. repeat (apply elem_of_cons in Hin as [Hin|Hin]; [discriminate|]).
    by apply elem_of_nil in Hin. }
  split; [done|].
  exact (nothing_before_initSocket directory tr Hno_init).
Defined.

Lemma remove_undoes_select_witness :
  (KnowledgeBase._id issueB ∉ KnowledgeBase.selectedIssueIds page) /\
  KnowledgeBase.selectedIssueIds
    (KnowledgeBase.handleRemoveLinked "i2" (KnowledgeBase.handleLinkSelect issueB page))
  = ["i1"].
Proof.
  assert (Hnew : KnowledgeBase._id issueB ∉ KnowledgeBase.selectedIssueIds page).
  { intros Hin%list_elem_of_singleton. discriminate. }
  split; [done|].
  exact (remove_undoes_select issueB page Hnew).
Defined.

Example segments_of_an_update :
  Dashboard.buildIssueUpdateSegments
    (Some ["dueDate"; "title"])
    (Some (<["labels" := {| Dashboard.from := None; Dashboard.to := None |}]>
             {["status" := {| Dashboard.from := Some "OPEN";
                              Dashboard.to := Some "DONE" |}]}))
    None ∅
  = [Dashboard.Changed "status" "status" "Open" "Done";
     Dashboard.Noted "title" "title updated";
     Dashboard.Noted "dueDate" "due date updated"].
Proof. vm_compute. reflexivity. Qed.

End DemoMore.
